(** * A shallow embedding of the AI-assisted to-do list

    Two source files are embedded:
    - [app/page.tsx], the React component [Home] that owns the task list
      and its event handlers ([addTodo], [toggleTodo], [deleteTodo],
      [addSubtask], [toggleSubtask], [generateWithAI],
      [handleSubtaskSubmit]);
    - [app/api/ai-generate/route.ts], the HTTP handler [POST] that asks the
      completion backend for tasks and parses its answer.

    JavaScript built-ins the handlers rely on ([String.prototype.trim],
    [JSON.parse], property access, [Array.prototype.map]) are modelled
    after ECMAScript; the rest follows the source line by line. *)

From Stdlib Require Import ZArith NArith List String Ascii Bool Lia.
From stdpp Require Import base option list gmap.
Import ListNotations.

(* ===================================================================== *)
(** ** JavaScript strings *)
(* ===================================================================== *)

(** A JavaScript string is a sequence of UTF-16 code units. *)
Abbreviation jsstring := (list N).

Module JsString.

(** An ASCII literal as a JavaScript string. *)
Definition lit (s : string) : jsstring :=
  List.map N_of_ascii (list_ascii_of_string s).

(** Same, with every apostrophe standing for a double quote (code unit
    34), so that JSON texts can be written down. *)
Definition quoted (s : string) : jsstring :=
  List.map (fun a => let c := N_of_ascii a in if N.eqb c 39 then 34%N else c)
           (list_ascii_of_string s).

(** ECMAScript WhiteSpace and LineTerminator code points, the ones
    [String.prototype.trim] strips.  All of them are in the BMP. *)
Definition isWhiteSpace (c : N) : bool :=
  (N.eqb c 9 || N.eqb c 10 || N.eqb c 11 || N.eqb c 12 || N.eqb c 13
   || N.eqb c 32 || N.eqb c 160 || N.eqb c 5760
   || (N.leb 8192 c && N.leb c 8202)
   || N.eqb c 8232 || N.eqb c 8233 || N.eqb c 8239 || N.eqb c 8287
   || N.eqb c 12288 || N.eqb c 65279)%N.

Fixpoint trimStart (s : jsstring) : jsstring :=
  match s with
  | [] => []
  | c :: r => if isWhiteSpace c then trimStart r else s
  end.

Definition trimEnd (s : jsstring) : jsstring :=
  rev (trimStart (rev s)).

(** [s.trim()] *)
Definition trim (s : jsstring) : jsstring := trimEnd (trimStart s).

(** [a === b] on strings. *)
Definition eqb (a b : jsstring) : bool := bool_decide (a = b).

End JsString.

(* ===================================================================== *)
(** ** JavaScript values, completions and the handler monad *)
(* ===================================================================== *)

(** The values that reach the component: whatever [JSON.parse] can build,
    plus [undefined] (the result of reading a missing property).  A number
    is kept as the exact decimal [m * 10^e] of its JSON lexeme; no handler
    reads a numeric value, so the rounding to binary64 is not modelled. *)
#[warnings="-register-all"]
Inductive jsval : Type :=
| JUndefined
| JNull
| JBool (b : bool)
| JNum (m e : Z)
| JStr (s : jsstring)
| JArr (xs : list jsval)
| JObj (props : list (jsstring * jsval)).

(** The exceptions the two files can meet. *)
Inductive exn : Type :=
| TypeError      (* property of null/undefined, call of a non-function *)
| SyntaxError    (* JSON.parse / Response.json on a malformed text *)
| UpstreamError. (* rejected fetch, rejected completion request *)

(** A completion record: normal, or abrupt by [throw]. *)
Inductive completion (A : Type) : Type :=
| Normal (a : A)
| Throw (e : exn).
Arguments Normal {A} a.
Arguments Throw {A} e.

(** Code runs in a state-and-exception monad.  A [throw] keeps the state
    reached so far, as in JavaScript: what was written before the
    exception stays written. *)
Definition M (S A : Type) : Type := S -> completion A * S.

Definition ret {S A} (a : A) : M S A := fun s => (Normal a, s).

Definition bind {S A B} (m : M S A) (k : A -> M S B) : M S B :=
  fun s => match m s with
           | (Normal a, s') => k a s'
           | (Throw e, s') => (Throw e, s')
           end.

Definition throw {S A} (e : exn) : M S A := fun s => (Throw e, s).

(** An awaited promise or a call into the environment whose outcome is
    already settled. *)
Definition settle {S A} (r : completion A) : M S A := fun s => (r, s).

Definition gets {S A} (f : S -> A) : M S A := fun s => (Normal (f s), s).

Definition modify {S} (f : S -> S) : M S unit := fun s => (Normal tt, f s).

(** [try { body } catch (err) { handler }] *)
Definition try_catch {S A} (body : M S A) (handler : exn -> M S A) : M S A :=
  fun s => match body s with
           | (Normal a, s') => (Normal a, s')
           | (Throw e, s') => handler e s'
           end.

(** [try { body } finally { fin }] *)
Definition try_finally {S A} (body : M S A) (fin : M S unit) : M S A :=
  fun s => match body s with
           | (r, s') => match fin s' with
                        | (Normal _, s'') => (r, s'')
                        | (Throw e, s'') => (Throw e, s'')
                        end
           end.

Notation "x <- m ;; k" := (bind m (fun x => k))
  (at level 100, m at next level, right associativity).
Notation "m ;;; k" := (bind m (fun _ => k))
  (at level 100, right associativity).

(** [xs.map(f)] for a callback with effects: left to right, stopping at
    the first callback that throws. *)
Fixpoint mapM {S A B} (f : A -> M S B) (xs : list A) : M S (list B) :=
  match xs with
  | [] => ret []
  | x :: r => y <- f x ;; ys <- mapM f r ;; ret (y :: ys)
  end.

(** [console.error(...)]: nothing the handlers can observe. *)
Definition console_error {S} : M S unit := ret tt.

Module JsValue.

(** First binding of [k] in a property list, [undefined] if there is
    none. *)
Fixpoint lookup (k : jsstring) (props : list (jsstring * jsval)) : jsval :=
  match props with
  | [] => JUndefined
  | (k', v) :: r => if JsString.eqb k' k then v else lookup k r
  end.

(** [JSON.parse] defines properties in source order; a repeated name
    overwrites the value and keeps the first position. *)
Fixpoint define (k : jsstring) (v : jsval) (props : list (jsstring * jsval))
    : list (jsstring * jsval) :=
  match props with
  | [] => [(k, v)]
  | (k', v') :: r =>
      if JsString.eqb k' k then (k, v) :: r else (k', v') :: define k v r
  end.

(** [v.k] for the names the program reads ([prompt], [tasks], [task],
    [subtasks]), none of which a built-in prototype defines: a
    [TypeError] on [null] and [undefined], the own property of an object,
    [undefined] on anything else. *)
Definition getProp {S} (v : jsval) (k : jsstring) : M S jsval :=
  match v with
  | JUndefined | JNull => throw TypeError
  | JObj props => ret (lookup k props)
  | _ => ret JUndefined
  end.

(** [v.map(f)]: only an array has a callable [map] ([JSON.parse] builds
    no function, so an object's own [map] property is not callable). *)
Definition arrayMap {S B} (v : jsval) (f : jsval -> M S B) : M S (list B) :=
  match v with
  | JArr xs => mapM f xs
  | _ => throw TypeError
  end.

End JsValue.

(* ===================================================================== *)
(** ** JSON.parse *)
(* ===================================================================== *)

(** The JSON grammar of ECMA-404, as [JSON.parse] reads it: a recursive
    descent over the code units.  [fuel] bounds the nesting depth; every
    nested value consumes a code unit, so the length of the text is enough
    (lemmas [value_fuel], [elements_fuel] and [members_fuel] below). *)
Module Json.

Local Open Scope N_scope.

Definition isJsonWs (c : N) : bool :=
  N.eqb c 32 || N.eqb c 9 || N.eqb c 10 || N.eqb c 13.

Fixpoint skipWs (s : jsstring) : jsstring :=
  match s with
  | c :: r => if isJsonWs c then skipWs r else s
  | [] => []
  end.

Definition isDigit (c : N) : bool := N.leb 48 c && N.leb c 57.

Definition hexDigit (c : N) : option N :=
  if N.leb 48 c && N.leb c 57 then Some (c - 48)
  else if N.leb 65 c && N.leb c 70 then Some (c - 55)
  else if N.leb 97 c && N.leb c 102 then Some (c - 87)
  else None.

(** The characters of a string after its opening quote, up to and
    including the closing quote. *)
Fixpoint parseChars (acc : jsstring) (s : jsstring)
    : option (jsstring * jsstring) :=
  match s with
  | [] => None
  | c :: r =>
      if N.eqb c 34 then Some (rev acc, r)
      else if N.eqb c 92 then
        match r with
        | [] => None
        | e :: r' =>
            if N.eqb e 34 then parseChars (34 :: acc) r'
            else if N.eqb e 92 then parseChars (92 :: acc) r'
            else if N.eqb e 47 then parseChars (47 :: acc) r'
            else if N.eqb e 98 then parseChars (8 :: acc) r'
            else if N.eqb e 102 then parseChars (12 :: acc) r'
            else if N.eqb e 110 then parseChars (10 :: acc) r'
            else if N.eqb e 114 then parseChars (13 :: acc) r'
            else if N.eqb e 116 then parseChars (9 :: acc) r'
            else if N.eqb e 117 then
              match r' with
              | h1 :: h2 :: h3 :: h4 :: r'' =>
                  match hexDigit h1, hexDigit h2, hexDigit h3, hexDigit h4 with
                  | Some d1, Some d2, Some d3, Some d4 =>
                      parseChars (((d1 * 16 + d2) * 16 + d3) * 16 + d4 :: acc) r''
                  | _, _, _, _ => None
                  end
              | _ => None
              end
            else None
        end
      else if N.ltb c 32 then None
      else parseChars (c :: acc) r
  end.

(** A maximal run of decimal digits: its value, its length, the rest. *)
Fixpoint digits (v : Z) (n : Z) (s : jsstring) : Z * Z * jsstring :=
  match s with
  | c :: r =>
      if isDigit c then digits (10 * v + Z.of_N (c - 48))%Z (n + 1)%Z r
      else (v, n, s)
  | [] => (v, n, s)
  end.

(** [int frac? exp?] after the optional minus sign. *)
Definition parseUnsigned (s : jsstring) : option (Z * Z * jsstring) :=
  match s with
  | c :: r =>
      if isDigit c then
        let '(i, _, r1) :=
          if N.eqb c 48 then (0%Z, 1%Z, r) else digits 0 0 s in
        let frac :=
          match r1 with
          | d :: ((f :: _) as r2) =>
              if N.eqb d 46 && isDigit f
              then let '(m, k, r3) := digits i 0 r2 in Some (m, k, r3)
              else if N.eqb d 46 then None else Some (i, 0%Z, r1)
          | [d] => if N.eqb d 46 then None else Some (i, 0%Z, r1)
          | [] => Some (i, 0%Z, r1)
          end in
        match frac with
        | None => None
        | Some (m, k, r3) =>
            match r3 with
            | e :: r4 =>
                if N.eqb e 101 || N.eqb e 69 then
                  let '(neg, r5) :=
                    match r4 with
                    | sg :: r5 =>
                        if N.eqb sg 45 then (true, r5)
                        else if N.eqb sg 43 then (false, r5)
                        else (false, r4)
                    | [] => (false, r4)
                    end in
                  match r5 with
                  | x :: _ =>
                      if isDigit x then
                        let '(ex, _, r6) := digits 0 0 r5 in
                        Some (m, ((if neg then - ex else ex) - k)%Z, r6)
                      else None
                  | [] => None
                  end
                else Some (m, (- k)%Z, r3)
            | [] => Some (m, (- k)%Z, r3)
            end
        end
      else None
  | [] => None
  end.

(** [s] without the prefix [p], if it starts with it. *)
Fixpoint stripPrefix (p s : jsstring) : option jsstring :=
  match p, s with
  | [], _ => Some s
  | a :: p', b :: s' => if N.eqb a b then stripPrefix p' s' else None
  | _ :: _, [] => None
  end.

Section Compound.
(** The parser of one value, one nesting level down. *)
Variable value : jsstring -> option (jsval * jsstring).

(** After an element of an array: [']'], or [','] and one more. *)
Fixpoint elements (k : nat) (acc : list jsval) (s : jsstring)
    : option (list jsval * jsstring) :=
  match k with
  | O => None
  | S k' =>
      match skipWs s with
      | c :: r =>
          if N.eqb c 93 then Some (rev acc, r)
          else if N.eqb c 44 then
            match value r with
            | Some (v, r') => elements k' (v :: acc) r'
            | None => None
            end
          else None
      | [] => None
      end
  end.

(** One [string : value] member. *)
Definition member (s : jsstring) : option (jsstring * jsval * jsstring) :=
  match skipWs s with
  | q :: r =>
      if N.eqb q 34 then
        match parseChars [] r with
        | Some (key, r1) =>
            match skipWs r1 with
            | c :: r2 =>
                if N.eqb c 58 then
                  match value r2 with
                  | Some (v, r3) => Some (key, v, r3)
                  | None => None
                  end
                else None
            | [] => None
            end
        | None => None
        end
      else None
  | [] => None
  end.

(** After a member of an object: ['}'], or [','] and one more. *)
Fixpoint members (k : nat) (acc : list (jsstring * jsval)) (s : jsstring)
    : option (list (jsstring * jsval) * jsstring) :=
  match k with
  | O => None
  | S k' =>
      match skipWs s with
      | c :: r =>
          if N.eqb c 125 then Some (acc, r)
          else if N.eqb c 44 then
            match member r with
            | Some (key, v, r') => members k' (JsValue.define key v acc) r'
            | None => None
            end
          else None
      | [] => None
      end
  end.
End Compound.

Fixpoint value (fuel : nat) (s : jsstring) : option (jsval * jsstring) :=
  match fuel with
  | O => None
  | S n =>
      match skipWs s with
      | [] => None
      | c :: r =>
          if N.eqb c 34 then
            match parseChars [] r with
            | Some (str, r') => Some (JStr str, r')
            | None => None
            end
          else if N.eqb c 91 then
            match skipWs r with
            | 93 :: r' => Some (JArr [], r')
            | _ =>
                match value n r with
                | Some (v, r1) =>
                    match elements (value n) (length r1) [v] r1 with
                    | Some (xs, r2) => Some (JArr xs, r2)
                    | None => None
                    end
                | None => None
                end
            end
          else if N.eqb c 123 then
            match skipWs r with
            | 125 :: r' => Some (JObj [], r')
            | _ =>
                match member (value n) r with
                | Some (key, v, r1) =>
                    match members (value n) (length r1) [(key, v)] r1 with
                    | Some (ps, r2) => Some (JObj ps, r2)
                    | None => None
                    end
                | None => None
                end
            end
          else if N.eqb c 116 then
            match stripPrefix (JsString.lit "rue") r with
            | Some r' => Some (JBool true, r')
            | None => None
            end
          else if N.eqb c 102 then
            match stripPrefix (JsString.lit "alse") r with
            | Some r' => Some (JBool false, r')
            | None => None
            end
          else if N.eqb c 110 then
            match stripPrefix (JsString.lit "ull") r with
            | Some r' => Some (JNull, r')
            | None => None
            end
          else if N.eqb c 45 then
            match parseUnsigned r with
            | Some (m, e, r') => Some (JNum (- m) e, r')
            | None => None
            end
          else
            match parseUnsigned (c :: r) with
            | Some (m, e, r') => Some (JNum m e, r')
            | None => None
            end
      end
  end.

(** [JSON.parse(text)]: one value, white space around it, nothing else;
    a [SyntaxError] otherwise. *)
Definition parse (text : jsstring) : completion jsval :=
  match value (S (length text)) text with
  | Some (v, r) =>
      match skipWs r with
      | [] => Normal v
      | _ :: _ => Throw SyntaxError
      end
  | None => Throw SyntaxError
  end.

End Json.

(* ===================================================================== *)
(** ** app/api/ai-generate/route.ts *)
(* ===================================================================== *)

Module Route.

(** What [openai.chat.completions.create] is called with. *)
Record ChatMessage : Type := mkMessage { role : jsstring; content : jsval }.

Record ChatRequest : Type :=
  mkRequest { model : jsstring; messages : list ChatMessage; max_tokens : Z }.

(** [chat.choices[i]], of which the handler reads [message.content], a
    string or [null]. *)
Record Choice : Type := mkChoice { message_content : option jsstring }.

(** The completion backend: for a request, the awaited [chat.choices]
    or a rejection. *)
Definition OpenAI : Type := ChatRequest -> completion (list Choice).

(** [NextResponse.json(body, { status })] *)
Record Response : Type := mkResponse { status : Z; body : jsval }.

Definition NextResponse_json (body : jsval) (status : Z) : Response :=
  mkResponse status body.

Definition systemPrompt : jsstring :=
  JsString.quoted "You are a helpful assistant that returns todo lists in JSON format.

For a given prompt, return an array of objects like:
[
  {
    'task': 'Main Task',
    'subtasks': ['Subtask 1', 'Subtask 2']
  }
]

Only return valid JSON " ++ [8212%N] ++ JsString.lit " no explanation, no markdown.".

(** [export async function POST(req)].  [req_json] is the outcome of
    [await req.json()]; the handler has no state of its own. *)
Definition POST (req_json : completion jsval) (create : OpenAI)
    : M unit Response :=
  reqBody <- settle req_json ;;
  prompt <- JsValue.getProp reqBody (JsString.lit "prompt") ;;
  try_catch
    (chat <- settle (create
               (mkRequest (JsString.lit "gpt-3.5-turbo")
                  [ mkMessage (JsString.lit "system") (JStr systemPrompt);
                    mkMessage (JsString.lit "user") prompt ]
                  200)) ;;
     choice <- match chat with
               | [] => throw TypeError
               | c :: _ => ret c
               end ;;
     let raw := match message_content choice with
                | Some ((_ :: _) as s) => s
                | Some [] | None => []
                end in
     parsed <- try_catch (settle (Json.parse raw))
                         (fun err => console_error ;;; ret (JArr [])) ;;
     ret (NextResponse_json (JObj [(JsString.lit "tasks", parsed)]) 200))
    (fun err =>
       console_error ;;;
       ret (NextResponse_json (JObj [(JsString.lit "tasks", JArr [])]) 500)).

End Route.

(* ===================================================================== *)
(** ** app/page.tsx: types and component state *)
(* ===================================================================== *)

(** Identifiers are JavaScript numbers used as opaque keys: the program
    only creates them with [getId] and compares them with [===]/[!==]. *)
Abbreviation number := Z.

(** [type Subtask].  TypeScript declares [text: string]; the annotation is
    erased at run time and [generateWithAI] stores whatever the response
    holds, hence [jsval]. *)
Module Subtask.
Record t : Type := mk { id : number; text : jsval; completed : bool }.
End Subtask.

(** [type Todo] *)
Module Todo.
Record t : Type :=
  mk { id : number; text : jsval; completed : bool;
       subtasks : list Subtask.t }.
End Todo.

(** The six [useState] cells of [Home]. *)
Record Home : Type := mkHome {
  todos : list Todo.t;
  newTodo : jsstring;
  subtaskInputs : gmap Z jsstring;
  aiInput : jsstring;
  showAI : bool;
  loadingAi : bool
}.

(** [getId = () => Date.now() + Math.random()] reads the clock and the
    random generator: the environment is an arbitrary sequence of numbers
    [id_at] and the count [ticks] of the draws made so far.  Nothing makes
    two draws differ, as in the source. *)
Record Clock : Type := mkClock { ticks : nat; id_at : nat -> number }.

(** What a handler can read and write. *)
Record World : Type := mkWorld { home : Home; clock : Clock }.

Definition initialHome : Home := mkHome [] [] ∅ [] false false.

Definition getId : M World number :=
  fun w =>
    (Normal (id_at (clock w) (ticks (clock w))),
     mkWorld (home w) (mkClock (S (ticks (clock w))) (id_at (clock w)))).

Definition withHome (f : Home -> Home) : M World unit :=
  modify (fun w => mkWorld (f (home w)) (clock w)).

(** [setTodos((prev) => f(prev))] *)
Definition setTodos (f : list Todo.t -> list Todo.t) : M World unit :=
  withHome (fun st =>
    mkHome (f (todos st)) (newTodo st) (subtaskInputs st) (aiInput st)
           (showAI st) (loadingAi st)).

(** [setTodos] with an updater that draws identifiers while it runs. *)
Definition setTodosM (f : list Todo.t -> M World (list Todo.t))
    : M World unit :=
  prev <- gets (fun w => todos (home w)) ;;
  next <- f prev ;;
  setTodos (fun _ => next).

Definition setNewTodo (v : jsstring) : M World unit :=
  withHome (fun st =>
    mkHome (todos st) v (subtaskInputs st) (aiInput st) (showAI st)
           (loadingAi st)).

Definition setSubtaskInputs (f : gmap Z jsstring -> gmap Z jsstring)
    : M World unit :=
  withHome (fun st =>
    mkHome (todos st) (newTodo st) (f (subtaskInputs st)) (aiInput st)
           (showAI st) (loadingAi st)).

Definition setAiInput (v : jsstring) : M World unit :=
  withHome (fun st =>
    mkHome (todos st) (newTodo st) (subtaskInputs st) v (showAI st)
           (loadingAi st)).

Definition setLoadingAi (b : bool) : M World unit :=
  withHome (fun st =>
    mkHome (todos st) (newTodo st) (subtaskInputs st) (aiInput st)
           (showAI st) b).

(* ===================================================================== *)
(** ** app/page.tsx: the handlers of [Home] *)
(* ===================================================================== *)

(** [addTodo] *)
Definition addTodo : M World unit :=
  newTodo <- gets (fun w => newTodo (home w)) ;;
  if JsString.eqb (JsString.trim newTodo) [] then ret tt
  else
    i <- getId ;;
    let todo := Todo.mk i (JStr (JsString.trim newTodo)) false [] in
    setTodos (fun prev => todo :: prev) ;;;
    setNewTodo [].

(** [toggleTodo] *)
Definition toggleTodo (id : number) : M World unit :=
  setTodos (fun prev =>
    List.map (fun todo =>
      if Z.eqb (Todo.id todo) id
      then Todo.mk (Todo.id todo) (Todo.text todo)
                   (negb (Todo.completed todo)) (Todo.subtasks todo)
      else todo) prev).

(** [deleteTodo] *)
Definition deleteTodo (id : number) : M World unit :=
  setTodos (fun prev =>
    List.filter (fun todo => negb (Z.eqb (Todo.id todo) id)) prev).

(** [addSubtask] *)
Definition addSubtask (todoId : number) (subtaskText : jsstring)
    : M World unit :=
  setTodosM (fun prev =>
    mapM (fun todo =>
      if Z.eqb (Todo.id todo) todoId
      then
        i <- getId ;;
        ret (Todo.mk (Todo.id todo) (Todo.text todo) (Todo.completed todo)
               (Todo.subtasks todo ++ [Subtask.mk i (JStr subtaskText) false]))
      else ret todo) prev).

(** [toggleSubtask] *)
Definition toggleSubtask (todoId subtaskId : number) : M World unit :=
  setTodos (fun prev =>
    List.map (fun todo =>
      if Z.eqb (Todo.id todo) todoId
      then Todo.mk (Todo.id todo) (Todo.text todo) (Todo.completed todo)
             (List.map (fun sub =>
                if Z.eqb (Subtask.id sub) subtaskId
                then Subtask.mk (Subtask.id sub) (Subtask.text sub)
                                (negb (Subtask.completed sub))
                else sub) (Todo.subtasks todo))
      else todo) prev).

(** What [fetch('/api/ai-generate', ...)] resolves to: the client only
    calls [res.json()] on it. *)
Record FetchResponse : Type := mkFetchResponse { json : completion jsval }.

(** The network, seen from the client: the request is its JSON body
    [{ prompt }] (URL, method and headers are constants), the result the
    awaited promise. *)
Definition Fetch : Type := jsval -> completion FetchResponse.

(** The callback of [generatedTodos.map] in [generateWithAI]. *)
Definition todoOfItem (item : jsval) : M World Todo.t :=
  i <- getId ;;
  text <- JsValue.getProp item (JsString.lit "task") ;;
  subs <- JsValue.getProp item (JsString.lit "subtasks") ;;
  subtasks <- JsValue.arrayMap subs (fun sub =>
                j <- getId ;;
                ret (Subtask.mk j sub false)) ;;
  ret (Todo.mk i text false subtasks).

(** [generateWithAI] from the point where [await fetch(...)] settles with
    [reply]: the rest of the [try] block, its [catch] and its [finally].
    It runs on the state of that moment. *)
Definition generateWithAI_resume (reply : completion FetchResponse)
    : M World unit :=
  try_finally
    (try_catch
       (res <- settle reply ;;
        data <- settle (json res) ;;
        generatedTodos <- JsValue.getProp data (JsString.lit "tasks") ;;
        newTasks <- JsValue.arrayMap generatedTodos todoOfItem ;;
        setTodos (fun prev => newTasks ++ prev) ;;;
        setAiInput [])
       (fun err => console_error))
    (setLoadingAi false).

(** The request body [JSON.stringify({ prompt: aiInput })], as a value. *)
Definition promptBody (aiInput : jsstring) : jsval :=
  JObj [(JsString.lit "prompt", JStr aiInput)].

(** [generateWithAI], with nothing else dispatched while the request is
    in flight. *)
Definition generateWithAI (fetch : Fetch) : M World unit :=
  aiInput <- gets (fun w => aiInput (home w)) ;;
  if JsString.eqb (JsString.trim aiInput) [] then ret tt
  else
    setLoadingAi true ;;;
    generateWithAI_resume (fetch (promptBody aiInput)).

(** [handleSubtaskInputChange] *)
Definition handleSubtaskInputChange (todoId : number) (value : jsstring)
    : M World unit :=
  setSubtaskInputs (fun prev => <[todoId := value]> prev).

(** [handleSubtaskSubmit]; [e.preventDefault()] touches no state. *)
Definition handleSubtaskSubmit (todoId : number) : M World unit :=
  inputs <- gets (fun w => subtaskInputs (home w)) ;;
  let text := JsString.trim <$> (inputs !! todoId) in
  match text with
  | None | Some [] => ret tt
  | Some ((_ :: _) as text) =>
      addSubtask todoId text ;;;
      setSubtaskInputs (fun prev => <[todoId := []]> prev)
  end.

(* ===================================================================== *)
(** ** The store operations and the wiring of client and server *)
(* ===================================================================== *)

(** [addTask(t)]: the user types [t] in the task box and presses Add. *)
Definition addTask (t : jsstring) : M World unit :=
  setNewTodo t ;;; addTodo.

(** [addSubtask(taskId, text)] as the user reaches it: [text] typed in the
    subtask box of the task, then the form submitted. *)
Definition submitSubtask (taskId : number) (text : jsstring) : M World unit :=
  handleSubtaskInputChange taskId text ;;; handleSubtaskSubmit taskId.

(** [fetch] served by [POST].  [NextResponse.json] writes the body with
    [JSON.stringify] and [res.json()] reads it back with [JSON.parse]; on a
    value that [JSON.parse] built, strings, arrays and objects come back
    as they were.  A handler that throws makes the framework answer with a
    body that is not JSON. *)
Definition fetchFrom (create : Route.OpenAI) : Fetch :=
  fun reqBody =>
    match Route.POST (Normal reqBody) create tt with
    | (Normal r, _) => Normal (mkFetchResponse (Normal (Route.body r)))
    | (Throw _, _) => Normal (mkFetchResponse (Throw SyntaxError))
    end.

(* ===================================================================== *)
(** ** Vocabulary of the statements *)
(* ===================================================================== *)

(** The task store: the list the component renders. *)
Definition store (w : World) : list Todo.t := todos (home w).

(** A text is blank when it is a string that trims to the empty string. *)
Definition blank (v : jsval) : Prop :=
  match v with
  | JStr s => JsString.trim s = []
  | _ => False
  end.

Definition noBlankTodo (t : Todo.t) : Prop :=
  ~ blank (Todo.text t) /\
  Forall (fun sub => ~ blank (Subtask.text sub)) (Todo.subtasks t).

(** No task and no subtask of the store has a blank text. *)
Definition noBlank (l : list Todo.t) : Prop := Forall noBlankTodo l.

(** A task as [addTodo] builds it. *)
Definition freshTodo (i : number) (t : jsstring) : Todo.t :=
  Todo.mk i (JStr (JsString.trim t)) false [].

(** [old] with one more subtask at the tail. *)
Definition withSubtask (old : Todo.t) (sub : Subtask.t) : Todo.t :=
  Todo.mk (Todo.id old) (Todo.text old) (Todo.completed old)
          (Todo.subtasks old ++ [sub]).

(** The tasks of [l] other than those with identifier [i], in order. *)
Definition others (i : number) (l : list Todo.t) : list Todo.t :=
  filter (fun t => Todo.id t <> i) l.

(** The world with another store and everything else as it was. *)
Definition withStore (l : list Todo.t) (w : World) : World :=
  mkWorld (mkHome l (newTodo (home w)) (subtaskInputs (home w))
                  (aiInput (home w)) (showAI (home w)) (loadingAi (home w)))
          (clock w).

(** [new] is [old] after [toggleTask(i)]: only [completed] may differ, and
    only on a task whose identifier is [i]. *)
Definition toggledTodo (i : number) (old new : Todo.t) : Prop :=
  Todo.id new = Todo.id old /\ Todo.text new = Todo.text old /\
  Todo.subtasks new = Todo.subtasks old /\
  (Todo.id old = i -> Todo.completed new = negb (Todo.completed old)) /\
  (Todo.id old <> i -> new = old).

(** [new] is [old] after its flag was flipped if its identifier is [j]. *)
Definition toggledSub (j : number) (old new : Subtask.t) : Prop :=
  Subtask.id new = Subtask.id old /\ Subtask.text new = Subtask.text old /\
  (Subtask.id old = j ->
     Subtask.completed new = negb (Subtask.completed old)) /\
  (Subtask.id old <> j -> new = old).

(** [new] is [old] after [toggleSubtask(i, j)]: the task keeps its
    identifier, text and own flag, and its subtasks are toggled one by one
    when its identifier is [i]. *)
Definition toggledSubtaskIn (i j : number) (old new : Todo.t) : Prop :=
  Todo.id new = Todo.id old /\ Todo.text new = Todo.text old /\
  Todo.completed new = Todo.completed old /\
  (Todo.id old = i ->
     Forall2 (toggledSub j) (Todo.subtasks old) (Todo.subtasks new)) /\
  (Todo.id old <> i -> new = old).

(** [new] is [old] after [addSubtask(i, text)]: one more subtask at the
    tail when its identifier is [i], itself otherwise. *)
Definition subtaskAdded (i : number) (text : jsstring) (old new : Todo.t)
    : Prop :=
  (Todo.id old = i ->
     exists k, new = withSubtask old (Subtask.mk k (JStr text) false)) /\
  (Todo.id old <> i -> new = old).

(** The array under [tasks] in the body of a reply, when the request
    succeeded, the body is JSON, and its [tasks] is an array. *)
Definition tasksOfReply (reply : completion FetchResponse)
    : option (list jsval) :=
  match reply with
  | Normal res =>
      match json res with
      | Normal (JObj props) =>
          match JsValue.lookup (JsString.lit "tasks") props with
          | JArr items => Some items
          | _ => None
          end
      | _ => None
      end
  | Throw _ => None
  end.

(** The items on which the callback of [generateWithAI] does not throw:
    objects whose [subtasks] is an array. *)
Definition mappable (item : jsval) : bool :=
  match item with
  | JObj props =>
      match JsValue.lookup (JsString.lit "subtasks") props with
      | JArr _ => true
      | _ => false
      end
  | _ => false
  end.

(** The replies on which the [try] block of [generateWithAI] does not
    throw. *)
Definition ingestible (reply : completion FetchResponse) : bool :=
  match tasksOfReply reply with
  | Some items => forallb mappable items
  | None => false
  end.

(** What the route sends to the completion backend for a prompt. *)
Definition requestFor (prompt : jsval) : Route.ChatRequest :=
  Route.mkRequest (JsString.lit "gpt-3.5-turbo")
    [ Route.mkMessage (JsString.lit "system") (JStr Route.systemPrompt);
      Route.mkMessage (JsString.lit "user") prompt ]
    200.

(** [content || ''] *)
Definition orEmpty (content : option jsstring) : jsstring :=
  match content with
  | Some s => s
  | None => []
  end.

(** What a task shows: its text and the texts of its subtasks. *)
Definition outline (t : Todo.t) : jsval * list jsval :=
  (Todo.text t, List.map Subtask.text (Todo.subtasks t)).

(** A computation that leaves the component state alone, whether it
    returns or throws (it may draw identifiers). *)
Definition keepsHome {A} (m : M World A) : Prop :=
  forall w r w', m w = (r, w') -> home w' = home w.

(** A parser of one value that consumes at least one code unit. *)
Definition consumes (pv : jsstring -> option (jsval * jsstring)) : Prop :=
  forall s v r, pv s = Some (v, r) -> length r < length s.

(** The events of the page that reach the store or its inputs, one per
    control of the rendered component. *)
Inductive Action : Type :=
| TypeNewTodo (value : jsstring)                 (* onChange of the task box *)
| AddTodo                                        (* Enter, or the Add button *)
| ToggleTodo (id : number)                       (* checkbox of a task *)
| DeleteTodo (id : number)                       (* delete button of a task *)
| TypeSubtask (todoId : number) (value : jsstring) (* onChange of a subtask box *)
| SubmitSubtask (todoId : number)                (* onSubmit of a subtask form *)
| ToggleSubtask (todoId subtaskId : number)      (* checkbox of a subtask *)
| TypeAiInput (value : jsstring)                 (* onChange of the prompt box *)
| Generate (fetch : Fetch).                      (* the Generate button *)

(** The handler each event is bound to.  The Generate button is rendered
    with [disabled={loadingAi}]. *)
Definition perform (a : Action) : M World unit :=
  match a with
  | TypeNewTodo v => setNewTodo v
  | AddTodo => addTodo
  | ToggleTodo i => toggleTodo i
  | DeleteTodo i => deleteTodo i
  | TypeSubtask i v => handleSubtaskInputChange i v
  | SubmitSubtask i => handleSubtaskSubmit i
  | ToggleSubtask i j => toggleSubtask i j
  | TypeAiInput v => setAiInput v
  | Generate fetch =>
      loading <- gets (fun w => loadingAi (home w)) ;;
      if loading then ret tt else generateWithAI fetch
  end.

(** A session: the events dispatched one after the other. *)
Fixpoint run (acts : list Action) : M World unit :=
  match acts with
  | [] => ret tt
  | a :: rest => perform a ;;; run rest
  end.

(** The events other than the ingestion of generated tasks. *)
Definition userAction (a : Action) : bool :=
  match a with
  | Generate _ => false
  | _ => true
  end.

(** The shape the system prompt asks for: [{task: string, subtasks:
    string[]}], read as the task text and the subtask texts. *)
Definition asString (v : jsval) : option jsstring :=
  match v with
  | JStr s => Some s
  | _ => None
  end.

(** Every element read by [f], or nothing. *)
Fixpoint traverse {A B} (f : A -> option B) (xs : list A) : option (list B) :=
  match xs with
  | [] => Some []
  | x :: r =>
      match f x, traverse f r with
      | Some y, Some ys => Some (y :: ys)
      | _, _ => None
      end
  end.

Definition asRecord (v : jsval) : option (jsstring * list jsstring) :=
  match v with
  | JObj props =>
      match JsValue.lookup (JsString.lit "task") props,
            JsValue.lookup (JsString.lit "subtasks") props with
      | JStr task, JArr subs =>
          match traverse asString subs with
          | Some texts => Some (task, texts)
          | None => None
          end
      | _, _ => None
      end
  | _ => None
  end.

(** A JSON array of such records. *)
Definition asRecords (v : jsval) : option (list (jsstring * list jsstring)) :=
  match v with
  | JArr items => traverse asRecord items
  | _ => None
  end.

(** A subtask carries the text [s] and is not completed. *)
Definition subtaskOf (s : jsstring) (sub : Subtask.t) : Prop :=
  Subtask.text sub = JStr s /\ Subtask.completed sub = false.

(** A task carries the text and the subtasks of a record, in order, and
    is not completed. *)
Definition todoOf (rec : jsstring * list jsstring) (t : Todo.t) : Prop :=
  Todo.text t = JStr (fst rec) /\ Todo.completed t = false /\
  Forall2 subtaskOf (snd rec) (Todo.subtasks t).

(** A backend that answers every request with the text [raw]. *)
Definition answering (raw : jsstring) : Route.OpenAI :=
  fun _ => Normal [Route.mkChoice (Some raw)].

(** A backend whose request fails. *)
Definition failing : Route.OpenAI := fun _ => Throw UpstreamError.

(** The response bodies of the route. *)
Definition tasksBody (tasks : jsval) : jsval :=
  JObj [(JsString.lit "tasks", tasks)].

(** Backend answers used in the examples. *)
Definition planTripAnswer : jsstring :=
  JsString.quoted
    "[{'task':'Plan trip','subtasks':['Book flight','Pack bags']}]".

Definition misshapenAnswer : jsstring :=
  JsString.quoted "[{'task':42,'subtasks':[]}]".

Definition blankAnswer : jsstring :=
  JsString.quoted "[{'task':'','subtasks':['  ']}]".

(** The value under [tasks] in the body [POST] answers with, for a
    prompt. *)
Definition gatewayTasks (create : Route.OpenAI) (prompt : jsval) : jsval :=
  match create (requestFor prompt) with
  | Normal (choice :: _) =>
      match Json.parse (orEmpty (Route.message_content choice)) with
      | Normal v => v
      | Throw _ => JArr []
      end
  | Normal [] | Throw _ => JArr []
  end.

(** A reply whose body is the JSON value [v]. *)
Definition replyWith (v : jsval) : completion FetchResponse :=
  Normal (mkFetchResponse (Normal v)).

(** A network that answers with a body that is not JSON. *)
Definition garbled : Fetch :=
  fun _ => Normal (mkFetchResponse (Throw SyntaxError)).

(** A freshly mounted component, with identifiers [100, 101, ...]. *)
Definition mounted : World :=
  mkWorld initialHome (mkClock 0 (fun n => 100 + Z.of_nat n)%Z).

(** A component with one task and a prompt typed in. *)
Definition busy : World :=
  mkWorld (mkHome [Todo.mk 7 (JStr (JsString.lit "Buy milk")) true []] [] ∅
                  (JsString.lit "Plan my weekend") true false)
          (mkClock 0 (fun n => 100 + Z.of_nat n)%Z).

(** The same with [prompt] typed in the prompt box. *)
Definition prompted (prompt : jsstring) : World :=
  mkWorld (mkHome [] [] ∅ prompt false false)
          (mkClock 0 (fun n => 100 + Z.of_nat n)%Z).

(* ===================================================================== *)
(** ** Vocabulary of the further properties *)
(* ===================================================================== *)

(** The updater of [toggleTodo] on one task. *)
Definition flipTodo (i : number) (todo : Todo.t) : Todo.t :=
  if Z.eqb (Todo.id todo) i
  then Todo.mk (Todo.id todo) (Todo.text todo)
               (negb (Todo.completed todo)) (Todo.subtasks todo)
  else todo.

(** The updater of [toggleSubtask] on one subtask and on one task. *)
Definition flipSubtask (j : number) (sub : Subtask.t) : Subtask.t :=
  if Z.eqb (Subtask.id sub) j
  then Subtask.mk (Subtask.id sub) (Subtask.text sub)
                  (negb (Subtask.completed sub))
  else sub.

Definition flipSubtaskIn (i j : number) (todo : Todo.t) : Todo.t :=
  if Z.eqb (Todo.id todo) i
  then Todo.mk (Todo.id todo) (Todo.text todo) (Todo.completed todo)
               (List.map (flipSubtask j) (Todo.subtasks todo))
  else todo.

(** The events that edit the tasks in place or remove them. *)
Definition storeEdit (a : Action) : bool :=
  match a with
  | ToggleTodo _ | DeleteTodo _ | ToggleSubtask _ _ => true
  | _ => false
  end.

(** The subtask box of task [i] is empty, blank, or was never typed in:
    [!(subtaskInputs[i]?.trim())]. *)
Definition boxBlank (i : number) (w : World) : Prop :=
  forall v, subtaskInputs (home w) !! i = Some v -> JsString.trim v = [].

(** [v.k] and the elements of [v], read without effects: [undefined] and
    no element where the program would have thrown. *)
Definition fieldOf (k : jsstring) (v : jsval) : jsval :=
  match v with
  | JObj props => JsValue.lookup k props
  | _ => JUndefined
  end.

Definition elementsOf (v : jsval) : list jsval :=
  match v with
  | JArr xs => xs
  | _ => []
  end.

(** What an item of a reply shows once it is a task: [item.task] and the
    elements of [item.subtasks], whatever they are. *)
Definition rawOutline (item : jsval) : jsval * list jsval :=
  (fieldOf (JsString.lit "task") item,
   elementsOf (fieldOf (JsString.lit "subtasks") item)).

(** Nothing of a task is completed. *)
Definition pending (t : Todo.t) : Prop :=
  Todo.completed t = false /\
  Forall (fun sub => Subtask.completed sub = false) (Todo.subtasks t).

(** A text as the two input forms store it: a string that is not empty
    and has no white space at either end. *)
Definition trimmedText (v : jsval) : Prop :=
  exists s, v = JStr s /\ s <> [] /\ JsString.trim s = s.

(** Every text of the store, of tasks and subtasks, satisfies [P]. *)
Definition allTexts (P : jsval -> Prop) (l : list Todo.t) : Prop :=
  Forall (fun t => P (Todo.text t) /\
                   Forall (fun sub => P (Subtask.text sub)) (Todo.subtasks t))
         l.

(** The identifiers of a task and of its subtasks, and of a whole store. *)
Definition idsOfTodo (t : Todo.t) : list number :=
  Todo.id t :: List.map Subtask.id (Todo.subtasks t).

Fixpoint allIds (l : list Todo.t) : list number :=
  match l with
  | [] => []
  | t :: r => idsOfTodo t ++ allIds r
  end.

(** The identifiers [getId] returns from the draw [from] on, [n] of them. *)
Definition draws (c : Clock) (from n : nat) : list number :=
  List.map (id_at c) (seq from n).

(** [i] was returned by a past call of [getId]. *)
Definition drawn (c : Clock) (i : number) : Prop :=
  exists n, n < ticks c /\ id_at c n = i.

(** [getId] never returns the same number twice. *)
Definition freshSource (c : Clock) : Prop :=
  forall m n, id_at c m = id_at c n -> m = n.

(** No identifier occurs twice in the store, tasks and subtasks together,
    and all of them come from [getId]. *)
Definition uniqueIds (w : World) : Prop :=
  NoDup (allIds (store w)) /\ Forall (drawn (clock w)) (allIds (store w)).

(** A computation that only advances the clock: same source, no draw
    undone. *)
Definition clockGrows {A} (m : M World A) : Prop :=
  forall w r w', m w = (r, w') ->
    id_at (clock w') = id_at (clock w) /\ ticks (clock w) <= ticks (clock w').



(* ===================================================================== *)
(** ** The built-ins on small inputs *)
(* ===================================================================== *)

Example trim_both_ends :
  JsString.trim (JsString.lit "  Buy milk ") = JsString.lit "Buy milk".
Proof. reflexivity. Qed.

Example trim_keeps_inner_blanks :
  JsString.trim (JsString.lit "a  b") = JsString.lit "a  b".
Proof. reflexivity. Qed.

Example trim_unicode_blanks :
  JsString.trim [160; 8232; 65279; 120; 12288]%N = [120]%N.
Proof. reflexivity. Qed.

Example parse_not_json :
  Json.parse (JsString.lit "not json") = Throw SyntaxError.
Proof. reflexivity. Qed.

Example parse_empty_text : Json.parse [] = Throw SyntaxError.
Proof. reflexivity. Qed.

Example parse_trailing_comma :
  Json.parse (JsString.quoted "[1,]") = Throw SyntaxError.
Proof. reflexivity. Qed.

Example parse_leading_zero :
  Json.parse (JsString.lit "01") = Throw SyntaxError.
Proof. reflexivity. Qed.

Example parse_nested :
  Json.parse (JsString.quoted " {'a': [true, null, -2.50e3], 'b': {}} ")
  = Normal (JObj [(JsString.lit "a", JArr [JBool true; JNull; JNum (-250) 1]);
                  (JsString.lit "b", JObj [])]).
Proof. vm_compute. reflexivity. Qed.

Example parse_repeated_name :
  Json.parse (JsString.quoted "{'task':'a','x':1,'task':'b'}")
  = Normal (JObj [(JsString.lit "task", JStr (JsString.lit "b"));
                  (JsString.lit "x", JNum 1 0)]).
Proof. vm_compute. reflexivity. Qed.

Example parse_escapes :
  Json.parse (JsString.quoted "'aA\n'") = Normal (JStr [97; 65; 10]%N).
Proof. vm_compute. reflexivity. Qed.

Example parse_plan_trip :
  Json.parse planTripAnswer
  = Normal (JArr
      [JObj [(JsString.lit "task", JStr (JsString.lit "Plan trip"));
             (JsString.lit "subtasks",
              JArr [JStr (JsString.lit "Book flight");
                    JStr (JsString.lit "Pack bags")])]]).
Proof. vm_compute. reflexivity. Qed.

(* ===================================================================== *)
(** ** [JSON.parse]: the fuel is enough *)
(* ===================================================================== *)

Section JsonFuel.
Import Json.

Lemma skipWs_length (s : jsstring) : length (skipWs s) <= length s.
Proof.
  induction s as [|c r IH]; simpl; [lia|].
  destruct (isJsonWs c); simpl; lia.
Qed.

Lemma parseChars_rest (n : nat) :
  forall s acc str r,
    length s <= n -> parseChars acc s = Some (str, r) -> length r < length s.
Proof.
  induction n as [|n IH]; intros s acc str r Hn E.
  - destruct s; [discriminate E | simpl in Hn; lia].
  - destruct s as [|c s]; [discriminate E|]. simpl in Hn, E.
    destruct (N.eqb c 34); [injection E as _ <-; simpl; lia|].
    destruct (N.eqb c 92).
    + destruct s as [|e s]; [discriminate E|]. simpl in Hn.
      repeat match type of E with
      | (if ?b then _ else _) = _ =>
          destruct b; [apply IH in E; simpl in *; lia|]
      end.
      destruct (N.eqb e 117); [|discriminate E].
      destruct s as [|h1 [|h2 [|h3 [|h4 s]]]]; try discriminate E.
      destruct (hexDigit h1), (hexDigit h2), (hexDigit h3), (hexDigit h4);
        try discriminate E.
      apply IH in E; simpl in *; lia.
    + destruct (N.ltb c 32); [discriminate E|].
      apply IH in E; simpl; lia.
Qed.

Lemma digits_rest (s : jsstring) :
  forall v n v' n' r, digits v n s = (v', n', r) -> length r <= length s.
Proof.
  induction s as [|c s IH]; intros v n v' n' r E; simpl in E.
  - injection E as _ _ <-. simpl; lia.
  - destruct (isDigit c).
    + apply IH in E. simpl; lia.
    + injection E as _ _ <-. simpl; lia.
Qed.

Lemma digits_rest_digit (c : N) (s : jsstring) v n v' n' r :
  isDigit c = true -> digits v n (c :: s) = (v', n', r) ->
  length r <= length s.
Proof.
  intros Hc E. simpl in E. rewrite Hc in E. now apply digits_rest in E.
Qed.

Lemma parseUnsigned_rest (s : jsstring) m e r :
  parseUnsigned s = Some (m, e, r) -> length r < length s.
Proof.
  unfold parseUnsigned. destruct s as [|c s]; [discriminate|].
  destruct (isDigit c) eqn:Hc; [|discriminate].
  set (first := if N.eqb c 48 then (0%Z, 1%Z, s) else digits 0 0 (c :: s)).
  assert (H1 : length (snd first) <= length s).
  { subst first. destruct (N.eqb c 48); [simpl; lia|].
    destruct (digits 0 0 (c :: s)) as [[i k] r1] eqn:D.
    simpl. eapply digits_rest_digit; eassumption. }
  destruct first as [[i k0] r1]. simpl in H1.
  set (frac := match r1 with
               | [] => Some (i, 0%Z, r1)
               | [d] => if N.eqb d 46 then None else Some (i, 0%Z, r1)
               | d :: ((f :: _) as r2) =>
                   if N.eqb d 46 && isDigit f
                   then let '(m, k, r3) := digits i 0 r2 in Some (m, k, r3)
                   else if N.eqb d 46 then None else Some (i, 0%Z, r1)
               end).
  assert (H2 : forall m k r3, frac = Some (m, k, r3) ->
                              length r3 <= length r1).
  { subst frac. intros m0 k r3 E. destruct r1 as [|d [|f r2]].
    - injection E as _ _ <-. lia.
    - destruct (N.eqb d 46); [discriminate E|]. injection E as _ _ <-. lia.
    - destruct (N.eqb d 46 && isDigit f).
      + destruct (digits i 0 (f :: r2)) as [[m1 k1] r4] eqn:D.
        injection E as _ _ <-. apply digits_rest in D. simpl in *. lia.
      + destruct (N.eqb d 46); [discriminate E|].
        injection E as _ _ <-. lia. }
  destruct frac as [[[m0 k] r3]|]; [|discriminate].
  specialize (H2 _ _ _ eq_refl).
  intros E. destruct r3 as [|x r4]; [injection E as _ _ <-; simpl; lia|].
  destruct (N.eqb x 101 || N.eqb x 69);
    [|injection E as _ _ <-; simpl in *; lia].
  set (sign := match r4 with
               | [] => (false, r4)
               | sg :: r5 =>
                   if N.eqb sg 45 then (true, r5)
                   else if N.eqb sg 43 then (false, r5) else (false, r4)
               end) in E.
  assert (H3 : length (snd sign) <= length r4).
  { subst sign. destruct r4 as [|sg r5]; [simpl; lia|].
    destruct (N.eqb sg 45); [simpl; lia|].
    destruct (N.eqb sg 43); simpl; lia. }
  destruct sign as [neg r5]. simpl in H3.
  destruct r5 as [|y r6]; [discriminate E|].
  destruct (isDigit y) eqn:Hy; [|discriminate E].
  destruct (digits 0 0 (y :: r6)) as [[ex k1] r7] eqn:D.
  injection E as _ _ <-.
  apply (digits_rest_digit _ _ _ _ _ _ _ Hy) in D. simpl in *. lia.
Qed.

Lemma stripPrefix_rest (p : jsstring) :
  forall s r, stripPrefix p s = Some r -> length r <= length s.
Proof.
  induction p as [|a p IH]; intros s r E; simpl in E.
  - injection E as <-. lia.
  - destruct s as [|b s]; [discriminate E|].
    destruct (N.eqb a b); [|discriminate E].
    apply IH in E. simpl; lia.
Qed.

Lemma elements_rest pv (k : nat) :
  consumes pv ->
  forall acc s xs r, elements pv k acc s = Some (xs, r) ->
                     length r < length s.
Proof.
  intros Hpv. induction k as [|k IH]; intros acc s xs r E; simpl in E;
    [discriminate E|].
  pose proof (skipWs_length s) as Hs.
  destruct (skipWs s) as [|c t]; [discriminate E|]. simpl in Hs.
  destruct (N.eqb c 93); [injection E as _ <-; lia|].
  destruct (N.eqb c 44); [|discriminate E].
  destruct (pv t) as [[v t']|] eqn:P; [|discriminate E].
  apply Hpv in P. apply IH in E. lia.
Qed.

Lemma member_rest pv s key v r :
  consumes pv -> member pv s = Some (key, v, r) -> length r < length s.
Proof.
  intros Hpv E. unfold member in E.
  pose proof (skipWs_length s) as Hs.
  destruct (skipWs s) as [|q t]; [discriminate E|]. simpl in Hs.
  destruct (N.eqb q 34); [|discriminate E].
  destruct (parseChars [] t) as [[k t1]|] eqn:P; [|discriminate E].
  apply (parseChars_rest (length t)) in P; [|lia].
  pose proof (skipWs_length t1) as Hs1.
  destruct (skipWs t1) as [|c t2]; [discriminate E|]. simpl in Hs1.
  destruct (N.eqb c 58); [|discriminate E].
  destruct (pv t2) as [[v' t3]|] eqn:V; [|discriminate E].
  apply Hpv in V. injection E as _ _ <-. lia.
Qed.

Lemma members_rest pv (k : nat) :
  consumes pv ->
  forall acc s ps r, members pv k acc s = Some (ps, r) ->
                     length r < length s.
Proof.
  intros Hpv. induction k as [|k IH]; intros acc s ps r E; simpl in E;
    [discriminate E|].
  pose proof (skipWs_length s) as Hs.
  destruct (skipWs s) as [|c t]; [discriminate E|]. simpl in Hs.
  destruct (N.eqb c 125); [injection E as _ <-; lia|].
  destruct (N.eqb c 44); [|discriminate E].
  destruct (member pv t) as [[[key v] t']|] eqn:P; [|discriminate E].
  apply (member_rest _ _ _ _ _ Hpv) in P. apply IH in E. lia.
Qed.

Lemma value_consumes (n : nat) : consumes (value n).
Proof.
  induction n as [|n IH]; intros s v r E; [discriminate E|].
  cbn [value] in E.
  pose proof (skipWs_length s) as Hs.
  destruct (skipWs s) as [|c t] eqn:Sk; [discriminate E|]. simpl in Hs.
  destruct (N.eqb c 34).
  { destruct (parseChars [] t) as [[str t']|] eqn:P; [|discriminate E].
    apply (parseChars_rest (length t)) in P; [|lia].
    injection E as _ <-. lia. }
  destruct (N.eqb c 91).
  { pose proof (skipWs_length t) as Ht.
    assert (G : match value n t with
                | Some (v, r1) =>
                    match elements (value n) (length r1) [v] r1 with
                    | Some (xs, r2) => Some (JArr xs, r2)
                    | None => None
                    end
                | None => None
                end = Some (v, r) -> length r < length s).
    { intros G. destruct (value n t) as [[v1 r1]|] eqn:V; [|discriminate G].
      apply IH in V.
      destruct (elements (value n) (length r1) [v1] r1) as [[xs r2]|] eqn:P;
        [|discriminate G].
      apply (elements_rest _ _ IH) in P. injection G as _ <-. lia. }
    destruct (skipWs t) as [|d t']; [exact (G E)|]. simpl in Ht.
    destruct d as [|p]; [exact (G E)|].
    do 7 (destruct p as [p|p|]; try exact (G E)).
    injection E as _ <-. lia. }
  destruct (N.eqb c 123).
  { pose proof (skipWs_length t) as Ht.
    assert (G : match member (value n) t with
                | Some (key, v, r1) =>
                    match members (value n) (length r1) [(key, v)] r1 with
                    | Some (ps, r2) => Some (JObj ps, r2)
                    | None => None
                    end
                | None => None
                end = Some (v, r) -> length r < length s).
    { intros G.
      destruct (member (value n) t) as [[[key v1] r1]|] eqn:V;
        [|discriminate G].
      apply (member_rest _ _ _ _ _ IH) in V.
      destruct (members (value n) (length r1) [(key, v1)] r1)
        as [[ps r2]|] eqn:P; [|discriminate G].
      apply (members_rest _ _ IH) in P. injection G as _ <-. lia. }
    destruct (skipWs t) as [|d t']; [exact (G E)|]. simpl in Ht.
    destruct d as [|p]; [exact (G E)|].
    do 7 (destruct p as [p|p|]; try exact (G E)).
    injection E as _ <-. lia. }
  repeat match type of E with
  | (if ?b then _ else _) = _ => destruct b
  end;
  match type of E with
  | match stripPrefix ?p t with _ => _ end = _ =>
      destruct (stripPrefix p t) as [t'|] eqn:P; [|discriminate E];
      apply stripPrefix_rest in P; injection E as _ <-; lia
  | match parseUnsigned ?u with _ => _ end = _ =>
      destruct (parseUnsigned u) as [[[m e] t']|] eqn:P; [|discriminate E];
      apply parseUnsigned_rest in P; injection E as _ <-; simpl in P; lia
  end.
Qed.

Lemma elements_agree pv pv' (L : nat) :
  (forall s, length s < L -> pv s = pv' s) -> consumes pv ->
  forall k acc s, length s <= L ->
                  elements pv k acc s = elements pv' k acc s.
Proof.
  intros Hag Hpv. induction k as [|k IH]; intros acc s Hs; simpl;
    [reflexivity|].
  pose proof (skipWs_length s) as Hl.
  destruct (skipWs s) as [|c t]; [reflexivity|]. simpl in Hl.
  destruct (N.eqb c 93); [reflexivity|].
  destruct (N.eqb c 44); [|reflexivity].
  rewrite <- (Hag t) by lia.
  destruct (pv t) as [[v t']|] eqn:P; [|reflexivity].
  apply Hpv in P. apply IH. lia.
Qed.

Lemma member_agree pv pv' (L : nat) :
  (forall s, length s < L -> pv s = pv' s) ->
  forall s, length s <= L -> member pv s = member pv' s.
Proof.
  intros Hag s Hs. unfold member.
  pose proof (skipWs_length s) as Hl.
  destruct (skipWs s) as [|q t]; [reflexivity|]. simpl in Hl.
  destruct (N.eqb q 34); [|reflexivity].
  destruct (parseChars [] t) as [[key t1]|] eqn:P; [|reflexivity].
  apply (parseChars_rest (length t)) in P; [|lia].
  pose proof (skipWs_length t1) as Hl1.
  destruct (skipWs t1) as [|c t2]; [reflexivity|]. simpl in Hl1.
  destruct (N.eqb c 58); [|reflexivity].
  now rewrite (Hag t2) by lia.
Qed.

Lemma members_agree pv pv' (L : nat) :
  (forall s, length s < L -> pv s = pv' s) -> consumes pv ->
  forall k acc s, length s <= L ->
                  members pv k acc s = members pv' k acc s.
Proof.
  intros Hag Hpv. induction k as [|k IH]; intros acc s Hs; simpl;
    [reflexivity|].
  pose proof (skipWs_length s) as Hl.
  destruct (skipWs s) as [|c t]; [reflexivity|]. simpl in Hl.
  destruct (N.eqb c 125); [reflexivity|].
  destruct (N.eqb c 44); [|reflexivity].
  rewrite <- (member_agree pv pv' L Hag t) by lia.
  destruct (member pv t) as [[[key v] t']|] eqn:P; [|reflexivity].
  apply (member_rest _ _ _ _ _ Hpv) in P. apply IH. lia.
Qed.

(** More fuel than the length of the text changes nothing. *)
Lemma value_fuel (n : nat) :
  forall s m, length s < n -> n <= m -> value m s = value n s.
Proof.
  induction n as [|n IH]; intros s m Hs Hm; [lia|].
  destruct m as [|m]; [lia|]. cbn [value].
  pose proof (skipWs_length s) as Hl.
  destruct (skipWs s) as [|c t]; [reflexivity|]. simpl in Hl.
  assert (Hag : forall u, length u < n -> value m u = value n u).
  { intros u Hu. apply IH; lia. }
  assert (Harr :
    match value m t with
    | Some (v, r1) =>
        match elements (value m) (length r1) [v] r1 with
        | Some (xs, r2) => Some (JArr xs, r2)
        | None => None
        end
    | None => None
    end =
    match value n t with
    | Some (v, r1) =>
        match elements (value n) (length r1) [v] r1 with
        | Some (xs, r2) => Some (JArr xs, r2)
        | None => None
        end
    | None => None
    end).
  { rewrite <- (Hag t) by lia.
    destruct (value m t) as [[v r1]|] eqn:V; [|reflexivity].
    apply value_consumes in V.
    now rewrite (elements_agree _ _ n Hag (value_consumes m)) by lia. }
  assert (Hobj :
    match member (value m) t with
    | Some (key, v, r1) =>
        match members (value m) (length r1) [(key, v)] r1 with
        | Some (ps, r2) => Some (JObj ps, r2)
        | None => None
        end
    | None => None
    end =
    match member (value n) t with
    | Some (key, v, r1) =>
        match members (value n) (length r1) [(key, v)] r1 with
        | Some (ps, r2) => Some (JObj ps, r2)
        | None => None
        end
    | None => None
    end).
  { rewrite <- (member_agree _ _ n Hag t) by lia.
    destruct (member (value m) t) as [[[key v] r1]|] eqn:V; [|reflexivity].
    apply (member_rest _ _ _ _ _ (value_consumes m)) in V.
    now rewrite (members_agree _ _ n Hag (value_consumes m)) by lia. }
  now rewrite Harr, Hobj.
Qed.

(** [JSON.parse] with any fuel above the length of the text. *)
Lemma parse_fuel (text : jsstring) (m : nat) :
  length text < m -> value m text = value (S (length text)) text.
Proof. intros H. apply value_fuel; lia. Qed.

(** The loops over the elements of an array and the members of an object
    never need more steps than code units left. *)
Lemma elements_fuel pv (k : nat) :
  consumes pv ->
  forall k' acc s, length s <= k -> k <= k' ->
                   elements pv k' acc s = elements pv k acc s.
Proof.
  intros Hpv. induction k as [|k IH]; intros k' acc s Hs Hk.
  - destruct s; [|simpl in Hs; lia]. destruct k'; reflexivity.
  - destruct k' as [|k']; [lia|]. simpl.
    pose proof (skipWs_length s) as Hl.
    destruct (skipWs s) as [|c t]; [reflexivity|]. simpl in Hl.
    destruct (N.eqb c 93); [reflexivity|].
    destruct (N.eqb c 44); [|reflexivity].
    destruct (pv t) as [[v t']|] eqn:P; [|reflexivity].
    apply Hpv in P. apply IH; lia.
Qed.

Lemma members_fuel pv (k : nat) :
  consumes pv ->
  forall k' acc s, length s <= k -> k <= k' ->
                   members pv k' acc s = members pv k acc s.
Proof.
  intros Hpv. induction k as [|k IH]; intros k' acc s Hs Hk.
  - destruct s; [|simpl in Hs; lia]. destruct k'; reflexivity.
  - destruct k' as [|k']; [lia|]. simpl.
    pose proof (skipWs_length s) as Hl.
    destruct (skipWs s) as [|c t]; [reflexivity|]. simpl in Hl.
    destruct (N.eqb c 125); [reflexivity|].
    destruct (N.eqb c 44); [|reflexivity].
    destruct (member pv t) as [[[key v] t']|] eqn:P; [|reflexivity].
    apply (member_rest _ _ _ _ _ Hpv) in P. apply IH; lia.
Qed.
End JsonFuel.

(* ===================================================================== *)
(** ** Properties of [trim] *)
(* ===================================================================== *)

Section Trim.
Import JsString.

Lemma trimStart_head (s : jsstring) :
  trimStart s = [] \/
  exists c r, trimStart s = c :: r /\ isWhiteSpace c = false.
Proof.
  induction s as [|c r IH]; simpl; [now left|].
  destruct (isWhiteSpace c) eqn:E; [exact IH|].
  right. now exists c, r.
Qed.

Lemma trimStart_fixed (c : N) (r : jsstring) :
  isWhiteSpace c = false -> trimStart (c :: r) = c :: r.
Proof. intros E. simpl. now rewrite E. Qed.

Lemma trimStart_idem (s : jsstring) : trimStart (trimStart s) = trimStart s.
Proof.
  destruct (trimStart_head s) as [E | (c & r & E & Hc)]; rewrite E.
  - reflexivity.
  - now apply trimStart_fixed.
Qed.

Lemma trimStart_snoc (l : jsstring) (c : N) :
  isWhiteSpace c = false -> trimStart (l ++ [c]) = trimStart l ++ [c].
Proof.
  intros Hc. induction l as [|a l IH]; simpl.
  - now rewrite Hc.
  - destruct (isWhiteSpace a); [exact IH | reflexivity].
Qed.

Lemma trimEnd_cons (c : N) (r : jsstring) :
  isWhiteSpace c = false -> trimEnd (c :: r) = c :: trimEnd r.
Proof.
  intros Hc. unfold trimEnd. simpl.
  rewrite trimStart_snoc by exact Hc.
  now rewrite rev_app_distr.
Qed.

Lemma trimEnd_idem (s : jsstring) : trimEnd (trimEnd s) = trimEnd s.
Proof.
  unfold trimEnd. now rewrite rev_involutive, trimStart_idem.
Qed.

(** [trim] is either empty or starts with a character that is not white
    space, followed by an end-trimmed rest. *)
Lemma trim_shape (s : jsstring) :
  trim s = [] \/
  exists c r, trim s = c :: trimEnd r /\ isWhiteSpace c = false.
Proof.
  unfold trim.
  destruct (trimStart_head s) as [E | (c & r & E & Hc)]; rewrite E.
  - now left.
  - right. exists c, r. split; [now apply trimEnd_cons | exact Hc].
Qed.

Lemma trim_idem (s : jsstring) : trim (trim s) = trim s.
Proof.
  destruct (trim_shape s) as [E | (c & r & E & Hc)]; rewrite E.
  - reflexivity.
  - unfold trim at 1. rewrite trimStart_fixed by exact Hc.
    rewrite trimEnd_cons by exact Hc. now rewrite trimEnd_idem.
Qed.

(** A text built by trimming is blank only if it is empty. *)
Lemma trimmed_not_blank (s : jsstring) :
  trim s <> [] -> ~ blank (JStr (trim s)).
Proof. intros Hne Hb. simpl in Hb. rewrite trim_idem in Hb. tauto. Qed.

End Trim.

(* ===================================================================== *)
(** ** Running the monad *)
(* ===================================================================== *)

Lemma bind_normal {S A B} (m : M S A) (k : A -> M S B) s a s' :
  m s = (Normal a, s') -> bind m k s = k a s'.
Proof. intros E. unfold bind. now rewrite E. Qed.

Lemma bind_throw {S A B} (m : M S A) (k : A -> M S B) s e s' :
  m s = (Throw e, s') -> bind m k s = (Throw e, s').
Proof. intros E. unfold bind. now rewrite E. Qed.

(** Unfolds the state writers of [Home]. *)
Ltac setters :=
  unfold setTodos, setNewTodo, setSubtaskInputs, setAiInput, setLoadingAi,
         withHome, modify, gets, ret, console_error, store in *.

(** [mapM] of a callback that only draws identifiers leaves [home] alone
    and, when it returns, yields one result per element. *)
Lemma mapM_home {A B} (f : A -> M World B) (xs : list A) :
  (forall x w r w', f x w = (r, w') -> home w' = home w) ->
  forall w r w', mapM f xs w = (r, w') ->
    home w' = home w /\
    (forall ys, r = Normal ys -> length ys = length xs).
Proof.
  intros Hf. induction xs as [|x xs IH]; intros w r w' E; simpl in E.
  - unfold ret in E. inversion E; subst. split; [reflexivity|].
    intros ys [= <-]. reflexivity.
  - unfold bind at 1 in E. destruct (f x w) as [[y|e] w1] eqn:E1.
    + apply Hf in E1. unfold bind at 1 in E.
      destruct (mapM f xs w1) as [[ys|e] w2] eqn:E2.
      * apply IH in E2 as [H2 HL]. unfold ret in E. inversion E; subst.
        split; [congruence|]. intros zs [= <-]. simpl. f_equal. now apply HL.
      * apply IH in E2 as [H2 _]. inversion E; subst.
        split; [congruence|]. intros zs [=].
    + apply Hf in E1. inversion E; subst. split; [exact E1|]. intros zs [=].
Qed.

(* ===================================================================== *)
(** ** The task store: [addTodo], [toggleTodo], [deleteTodo] *)
(* ===================================================================== *)

Lemma addTask_blank (t : jsstring) (w : World) :
  JsString.trim t = [] ->
  exists w', addTask t w = (Normal tt, w') /\ store w' = store w /\
             clock w' = clock w.
Proof.
  intros E. unfold addTask, addTodo, bind. setters. simpl.
  unfold JsString.eqb. rewrite bool_decide_eq_true_2 by exact E.
  eexists. split; [reflexivity|]. now split.
Qed.

Lemma addTask_fresh (t : jsstring) (w : World) :
  JsString.trim t <> [] ->
  exists w', addTask t w = (Normal tt, w') /\
             store w' = freshTodo (id_at (clock w) (ticks (clock w))) t
                          :: store w.
Proof.
  intros E. unfold addTask, addTodo, getId, bind. setters. simpl.
  unfold JsString.eqb. rewrite bool_decide_eq_false_2 by exact E.
  eexists. split; reflexivity.
Qed.

(** C1.  [addTask(t)] always returns; it leaves the store as it was exactly
    when [t] trims to the empty string, and otherwise puts one new task
    (text [t] trimmed, not completed, no subtasks) at index 0 in front of
    the previous tasks, which are unchanged and in their order.  Two adds
    in a row leave the later task first. *)
Theorem addTask_spec (t u : jsstring) (w : World) :
  exists w1 w2,
    addTask t w = (Normal tt, w1) /\
    addTask u w1 = (Normal tt, w2) /\
    (store w1 = store w <-> JsString.trim t = []) /\
    (JsString.trim t <> [] ->
       store w1 = freshTodo (id_at (clock w) (ticks (clock w))) t :: store w) /\
    (JsString.trim t <> [] -> JsString.trim u <> [] ->
       exists i j, store w2 = freshTodo j u :: freshTodo i t :: store w).
Proof.
  assert (total : forall s v, exists v',
            addTask s v = (Normal tt, v') /\
            (JsString.trim s = [] -> store v' = store v) /\
            (JsString.trim s <> [] ->
               store v' = freshTodo (id_at (clock v) (ticks (clock v))) s
                            :: store v)).
  { intros s v. destruct (decide (JsString.trim s = [])) as [E|E].
    - destruct (addTask_blank s v E) as (v' & R & Hs & _).
      exists v'. split; [exact R|]. split; [easy | tauto].
    - destruct (addTask_fresh s v E) as (v' & R & Hs).
      exists v'. split; [exact R|]. split; [tauto | easy]. }
  destruct (total t w) as (w1 & R1 & B1 & F1).
  destruct (total u w1) as (w2 & R2 & B2 & F2).
  exists w1, w2. repeat split; try assumption.
  - intros Heq. destruct (decide (JsString.trim t = [])) as [E|E]; [exact E|].
    rewrite (F1 E) in Heq. apply (f_equal (@length _)) in Heq.
    simpl in Heq. lia.
  - intros Ht Hu. eexists _, _. rewrite (F2 Hu), (F1 Ht). reflexivity.
Qed.

(** C1 on the scenario of the specification: from the empty store,
    "Buy milk" then "Walk dog" leaves "Walk dog" first. *)
Lemma addTask_spec_witness :
  exists w2,
    (addTask (JsString.lit "Buy milk") ;;; addTask (JsString.lit "Walk dog"))
      mounted = (Normal tt, w2) /\
    List.map Todo.text (store w2)
    = [JStr (JsString.lit "Walk dog"); JStr (JsString.lit "Buy milk")].
Proof.
  destruct (addTask_spec (JsString.lit "Buy milk") (JsString.lit "Walk dog")
              mounted) as (w1 & w2 & R1 & R2 & _ & _ & H).
  exists w2. split.
  - rewrite (bind_normal _ _ _ _ _ R1). exact R2.
  - destruct H as (i & j & E); [vm_compute; discriminate ..|].
    rewrite E. reflexivity.
Defined.

Lemma setTodos_run (f : list Todo.t -> list Todo.t) (w : World) :
  setTodos f w = (Normal tt, withStore (f (store w)) w).
Proof. reflexivity. Qed.

Lemma withStore_same (w : World) : withStore (store w) w = w.
Proof. destruct w as [[] ?]. reflexivity. Qed.

Lemma withStore_twice (l l' : list Todo.t) (w : World) :
  withStore l' (withStore l w) = withStore l' w.
Proof. reflexivity. Qed.

Lemma store_withStore (l : list Todo.t) (w : World) :
  store (withStore l w) = l.
Proof. reflexivity. Qed.

Lemma toggledTodo_map (id : number) (l : list Todo.t) :
  Forall2 (toggledTodo id) l
    (List.map (fun todo =>
       if Z.eqb (Todo.id todo) id
       then Todo.mk (Todo.id todo) (Todo.text todo)
                    (negb (Todo.completed todo)) (Todo.subtasks todo)
       else todo) l).
Proof.
  induction l as [|[i t c s] l IH]; simpl; constructor; [|exact IH].
  unfold toggledTodo.
  destruct (Z.eqb_spec i id); simpl; repeat split; auto; congruence.
Qed.

Lemma toggleTodo_run (id : number) (w : World) :
  exists w', toggleTodo id w = (Normal tt, w') /\
             Forall2 (toggledTodo id) (store w) (store w').
Proof.
  unfold toggleTodo. rewrite setTodos_run. eexists. split; [reflexivity|].
  rewrite store_withStore. apply toggledTodo_map.
Qed.

(** C7.  [toggleTask(id)] twice gives back the world it started from, and
    once changes nothing but the [completed] flag of the tasks whose
    identifier is [id]: identifier, text and subtasks stay, and so does
    every other task. *)
Theorem toggleTodo_spec (id : number) (w : World) :
  exists w1,
    toggleTodo id w = (Normal tt, w1) /\
    toggleTodo id w1 = (Normal tt, w) /\
    Forall2 (toggledTodo id) (store w) (store w1) /\
    (exists l, w1 = withStore l w).
Proof.
  unfold toggleTodo. rewrite setTodos_run. eexists. split; [reflexivity|].
  rewrite setTodos_run, store_withStore, withStore_twice.
  split; [|split; [|eexists; reflexivity]].
  - rewrite List.map_map.
    rewrite (List.map_ext _ (fun t => t)), List.map_id, withStore_same;
      [reflexivity|].
    intros [i t c s]. simpl.
    destruct (Z.eqb i id) eqn:E; simpl; rewrite E; [|reflexivity].
    now rewrite negb_involutive.
  - apply toggledTodo_map.
Qed.

Lemma others_filter (i : number) (l : list Todo.t) :
  List.filter (fun todo => negb (Z.eqb (Todo.id todo) i)) l = others i l.
Proof.
  unfold others. induction l as [|t l IH]; simpl; [reflexivity|].
  rewrite filter_cons. destruct (Z.eqb_spec (Todo.id t) i).
  - simpl. rewrite decide_False by tauto. exact IH.
  - simpl. rewrite decide_True by tauto. now rewrite IH.
Qed.

Lemma others_absent (i : number) (l : list Todo.t) :
  Forall (fun t => Todo.id t <> i) l -> others i l = l.
Proof.
  unfold others. induction 1 as [|t l Ht Hl IH]; [reflexivity|].
  rewrite filter_cons, decide_True by exact Ht. now rewrite IH.
Qed.

Lemma others_clean (i : number) (l : list Todo.t) :
  Forall (fun t => Todo.id t <> i) (others i l).
Proof.
  unfold others. induction l as [|t l IH]; [constructor|].
  rewrite filter_cons. destruct (decide (Todo.id t <> i)); [|exact IH].
  now constructor.
Qed.

Lemma deleteTodo_run (id : number) (w : World) :
  exists w', deleteTodo id w = (Normal tt, w') /\
             store w' = others id (store w).
Proof.
  unfold deleteTodo. rewrite setTodos_run, others_filter.
  eexists. split; reflexivity.
Qed.

(** C9.  [deleteTask(id)] always returns; afterwards no task has the
    identifier [id], the tasks with another identifier are the same, in
    the same order, a second [deleteTask(id)] changes nothing, and so does
    the first when no task has that identifier. *)
Theorem deleteTodo_spec (id : number) (w : World) :
  exists w1,
    deleteTodo id w = (Normal tt, w1) /\
    deleteTodo id w1 = (Normal tt, w1) /\
    w1 = withStore (others id (store w)) w /\
    Forall (fun t => Todo.id t <> id) (store w1) /\
    others id (store w1) = others id (store w) /\
    sublist (store w1) (store w) /\
    (Forall (fun t => Todo.id t <> id) (store w) -> w1 = w).
Proof.
  unfold deleteTodo. rewrite setTodos_run, others_filter.
  eexists. split; [reflexivity|].
  rewrite setTodos_run, others_filter, store_withStore, withStore_twice.
  pose proof (others_clean id (store w)) as Hc.
  rewrite (others_absent id _ Hc).
  repeat split; try reflexivity; try assumption.
  - unfold others. apply sublist_filter.
  - intros Ha. rewrite (others_absent id _ Ha). apply withStore_same.
Qed.

(** C9 at work: deleting the middle one of three tasks keeps the other
    two in order; deleting an identifier that is not there is a no-op. *)
Lemma deleteTodo_spec_witness :
  exists w3 w4,
    run [TypeNewTodo (JsString.lit "a"); AddTodo;
         TypeNewTodo (JsString.lit "b"); AddTodo;
         TypeNewTodo (JsString.lit "c"); AddTodo] mounted = (Normal tt, w3) /\
    deleteTodo 101 w3 = (Normal tt, w4) /\
    List.map Todo.id (store w3) = [102; 101; 100]%Z /\
    List.map Todo.id (store w4) = [102; 100]%Z /\
    deleteTodo 7 w4 = (Normal tt, w4).
Proof.
  eexists. 
  destruct (deleteTodo_spec 101
              (snd (run [TypeNewTodo (JsString.lit "a"); AddTodo;
                         TypeNewTodo (JsString.lit "b"); AddTodo;
                         TypeNewTodo (JsString.lit "c"); AddTodo] mounted)))
    as (w4 & R & _ & E & _).
  exists w4. split; [vm_compute; reflexivity|].
  split; [exact R|]. split; [vm_compute; reflexivity|].
  split; [rewrite E; vm_compute; reflexivity|].
  destruct (deleteTodo_spec 7 w4) as (w5 & R5 & _ & _ & _ & _ & _ & Hno).
  rewrite R5. f_equal. apply Hno. rewrite E. vm_compute.
  repeat constructor; discriminate.
Defined.

(* ===================================================================== *)
(** ** The task store: [toggleSubtask], [addSubtask] *)
(* ===================================================================== *)

Lemma toggledSub_map (j : number) (l : list Subtask.t) :
  Forall2 (toggledSub j) l
    (List.map (fun sub =>
       if Z.eqb (Subtask.id sub) j
       then Subtask.mk (Subtask.id sub) (Subtask.text sub)
                       (negb (Subtask.completed sub))
       else sub) l).
Proof.
  induction l as [|[i t c] l IH]; simpl; constructor; [|exact IH].
  unfold toggledSub.
  destruct (Z.eqb_spec i j); simpl; repeat split; auto; congruence.
Qed.

Lemma toggledSub_absent (j : number) (l : list Subtask.t) :
  Forall (fun s => Subtask.id s <> j) l ->
  List.map (fun sub =>
       if Z.eqb (Subtask.id sub) j
       then Subtask.mk (Subtask.id sub) (Subtask.text sub)
                       (negb (Subtask.completed sub))
       else sub) l = l.
Proof.
  induction 1 as [|s l Hs Hl IH]; simpl; [reflexivity|].
  rewrite IH. destruct (Z.eqb_spec (Subtask.id s) j); [tauto | reflexivity].
Qed.

Lemma toggledSubtaskIn_map (i j : number) (l : list Todo.t) :
  Forall2 (toggledSubtaskIn i j) l
    (List.map (fun todo =>
       if Z.eqb (Todo.id todo) i
       then Todo.mk (Todo.id todo) (Todo.text todo) (Todo.completed todo)
              (List.map (fun sub =>
                 if Z.eqb (Subtask.id sub) j
                 then Subtask.mk (Subtask.id sub) (Subtask.text sub)
                                 (negb (Subtask.completed sub))
                 else sub) (Todo.subtasks todo))
       else todo) l).
Proof.
  induction l as [|[k t c s] l IH]; simpl; constructor; [|exact IH].
  unfold toggledSubtaskIn.
  destruct (Z.eqb_spec k i); simpl; repeat split; auto; try congruence.
  intros _. apply toggledSub_map.
Qed.

Lemma toggledSubtaskIn_absent (i j : number) (l : list Todo.t) :
  Forall (fun t => Todo.id t = i ->
            Forall (fun s => Subtask.id s <> j) (Todo.subtasks t)) l ->
  List.map (fun todo =>
       if Z.eqb (Todo.id todo) i
       then Todo.mk (Todo.id todo) (Todo.text todo) (Todo.completed todo)
              (List.map (fun sub =>
                 if Z.eqb (Subtask.id sub) j
                 then Subtask.mk (Subtask.id sub) (Subtask.text sub)
                                 (negb (Subtask.completed sub))
                 else sub) (Todo.subtasks todo))
       else todo) l = l.
Proof.
  induction 1 as [|[k t c s] l Ht Hl IH]; simpl; [reflexivity|].
  rewrite IH. f_equal. simpl in Ht.
  destruct (Z.eqb_spec k i) as [E|E]; [|reflexivity].
  now rewrite (toggledSub_absent _ _ (Ht E)).
Qed.

Lemma toggleSubtask_run (i j : number) (w : World) :
  exists w', toggleSubtask i j w = (Normal tt, w') /\
             Forall2 (toggledSubtaskIn i j) (store w) (store w').
Proof.
  unfold toggleSubtask. rewrite setTodos_run. eexists. split; [reflexivity|].
  rewrite store_withStore. apply toggledSubtaskIn_map.
Qed.

(** C8.  [toggleSubtask(taskId, subtaskId)] always returns and touches
    nothing but the store; in the store, a task with another identifier is
    unchanged, a task with identifier [taskId] keeps its identifier, text
    and own [completed] flag (no cascading), and among its subtasks exactly
    those with identifier [subtaskId] have their flag flipped.  When no
    task, or no subtask of a matching task, is found, nothing changes. *)
Theorem toggleSubtask_spec (taskId subtaskId : number) (w : World) :
  exists w1,
    toggleSubtask taskId subtaskId w = (Normal tt, w1) /\
    (exists l, w1 = withStore l w) /\
    Forall2 (toggledSubtaskIn taskId subtaskId) (store w) (store w1) /\
    (Forall (fun t => Todo.id t <> taskId) (store w) -> w1 = w) /\
    (Forall (fun t => Todo.id t = taskId ->
               Forall (fun s => Subtask.id s <> subtaskId) (Todo.subtasks t))
            (store w) -> w1 = w).
Proof.
  unfold toggleSubtask. rewrite setTodos_run. eexists.
  split; [reflexivity|]. split; [eexists; reflexivity|].
  rewrite store_withStore.
  split; [apply toggledSubtaskIn_map|]. split.
  - intros Ha. rewrite toggledSubtaskIn_absent; [apply withStore_same|].
    eapply Forall_impl; [exact Ha|]. simpl. intros t Hne Heq. contradiction.
  - intros Ha. rewrite toggledSubtaskIn_absent by exact Ha.
    apply withStore_same.
Qed.

(** The updater of [addSubtask] on a list of tasks. *)
Lemma addSubtask_updater (i : number) (text : jsstring) (l : list Todo.t) :
  forall w, exists l' w',
    mapM (fun todo =>
      if Z.eqb (Todo.id todo) i
      then
        k <- getId ;;
        ret (Todo.mk (Todo.id todo) (Todo.text todo) (Todo.completed todo)
               (Todo.subtasks todo ++ [Subtask.mk k (JStr text) false]))
      else ret todo) l w = (Normal l', w') /\
    home w' = home w /\
    Forall2 (subtaskAdded i text) l l' /\
    (Forall (fun t => Todo.id t <> i) l -> l' = l /\ w' = w).
Proof.
  induction l as [|t l IH]; intros w; simpl.
  - exists [], w. repeat split; constructor.
  - destruct (Z.eqb_spec (Todo.id t) i) as [E|E].
    + unfold bind at 1. unfold getId at 1. unfold bind at 1. unfold ret at 1.
      match goal with |- context [bind _ _ ?v] =>
        destruct (IH v) as (l' & w' & R & Hh & Hf & _) end.
      rewrite (bind_normal _ _ _ _ _ R). unfold ret.
      eexists _, w'. split; [reflexivity|]. split; [exact Hh|]. split.
      * constructor; [|exact Hf]. split; [|tauto].
        intros _. eexists. reflexivity.
      * intros Ha. inversion Ha; subst. contradiction.
    + unfold bind at 1. unfold ret at 1.
      destruct (IH w) as (l' & w' & R & Hh & Hf & Hno).
      rewrite (bind_normal _ _ _ _ _ R). unfold ret.
      eexists _, w'. split; [reflexivity|]. split; [exact Hh|]. split.
      * constructor; [|exact Hf]. split; [contradiction | reflexivity].
      * intros Ha. inversion Ha; subst.
        destruct (Hno ltac:(assumption)) as [-> ->]. now split.
Qed.

Lemma addSubtask_run (i : number) (text : jsstring) (w : World) :
  exists l' c',
    addSubtask i text w = (Normal tt, mkWorld (home (withStore l' w)) c') /\
    Forall2 (subtaskAdded i text) (store w) l' /\
    (Forall (fun t => Todo.id t <> i) (store w) -> l' = store w /\ c' = clock w).
Proof.
  unfold addSubtask, setTodosM.
  destruct (addSubtask_updater i text (store w) w)
    as (l' & w' & R & Hh & Hf & Hno).
  exists l', (clock w'). split; [|split; [exact Hf|]].
  - unfold bind at 1. unfold gets at 1. fold (store w).
    unfold bind at 1. rewrite R. rewrite setTodos_run.
    unfold withStore. simpl. now rewrite Hh.
  - intros Ha. destruct (Hno Ha) as [-> ->]. now split.
Qed.

(** C6.  [addSubtask(taskId, text)], as the subtask form runs it, always
    returns.  The store is unchanged when [text] trims to the empty string
    and when no task has the identifier [taskId]; otherwise every task
    with that identifier gets one new subtask at the tail of its subtasks
    ([text] trimmed, not completed) and keeps its other fields, and every
    other task is unchanged, all in their places. *)
Theorem submitSubtask_spec (taskId : number) (text : jsstring) (w : World) :
  exists w1,
    submitSubtask taskId text w = (Normal tt, w1) /\
    (JsString.trim text = [] -> store w1 = store w /\ clock w1 = clock w) /\
    (Forall (fun t => Todo.id t <> taskId) (store w) ->
       store w1 = store w /\ clock w1 = clock w) /\
    (JsString.trim text <> [] ->
       Forall2 (subtaskAdded taskId (JsString.trim text))
               (store w) (store w1)).
Proof.
  unfold submitSubtask, handleSubtaskInputChange, handleSubtaskSubmit.
  unfold bind at 1. unfold setSubtaskInputs at 1, withHome, modify.
  unfold bind at 1. unfold gets at 1. cbn [home subtaskInputs].
  rewrite lookup_insert_eq. cbn [fmap option_fmap option_map].
  destruct (JsString.trim text) as [|c r] eqn:E.
  - eexists. split; [reflexivity|]. repeat split; intros; try reflexivity.
    congruence.
  - match goal with |- context [bind _ _ ?v] =>
      destruct (addSubtask_run taskId (c :: r) v) as (l' & c' & R & Hf & Hno)
    end.
    rewrite (bind_normal _ _ _ _ _ R). eexists. split; [reflexivity|].
    split; [intros [=]|]. split.
    + intros Ha. destruct (Hno Ha) as [-> ->]. now split.
    + intros _. exact Hf.
Qed.

(** [addSubtask] by itself has no guard: it appends the text it is given.
    The trimming and the rejection of blank text belong to its only
    caller, [handleSubtaskSubmit]. *)
Remark addSubtask_unguarded :
  exists w1 w2,
    addTask (JsString.lit "Walk dog") mounted = (Normal tt, w1) /\
    addSubtask 100 (JsString.lit "  ") w1 = (Normal tt, w2) /\
    List.map outline (store w2)
    = [(JStr (JsString.lit "Walk dog"), [JStr (JsString.lit "  ")])].
Proof. eexists _, _. repeat split; vm_compute; reflexivity. Qed.

(** C6 at work: a subtask typed with surrounding blanks is appended
    trimmed; a blank one leaves the store as it was. *)
Lemma submitSubtask_spec_witness :
  exists w1 w2 w3,
    addTask (JsString.lit "Walk dog") mounted = (Normal tt, w1) /\
    submitSubtask 100 (JsString.lit " leash ") w1 = (Normal tt, w2) /\
    List.map Todo.subtasks (store w2)
    = [[Subtask.mk 101 (JStr (JsString.lit "leash")) false]] /\
    submitSubtask 100 (JsString.lit "   ") w2 = (Normal tt, w3) /\
    store w3 = store w2.
Proof.
  eexists. 
  destruct (submitSubtask_spec 100 (JsString.lit " leash ")
              (snd (addTask (JsString.lit "Walk dog") mounted)))
    as (w2 & R2 & _ & _ & _).
  destruct (submitSubtask_spec 100 (JsString.lit "   ") w2)
    as (w3 & R3 & Hb & _ & _).
  exists w2, w3. split; [vm_compute; reflexivity|].
  split; [exact R2|]. split.
  - vm_compute in R2. injection R2 as <-. vm_compute. reflexivity.
  - split; [exact R3|]. apply Hb. vm_compute. reflexivity.
Defined.

(* ===================================================================== *)
(** ** The route: [POST] *)
(* ===================================================================== *)

(** [POST], once the request body has been read and destructured. *)
Lemma POST_run (reqBody prompt : jsval) (create : Route.OpenAI) :
  JsValue.getProp reqBody (JsString.lit "prompt") tt = (Normal prompt, tt) ->
  Route.POST (Normal reqBody) create tt =
  (Normal
     match create (requestFor prompt) with
     | Normal (choice :: _) =>
         Route.mkResponse 200
           (tasksBody
              match Json.parse (orEmpty (Route.message_content choice)) with
              | Normal v => v
              | Throw _ => JArr []
              end)
     | Normal [] | Throw _ => Route.mkResponse 500 (tasksBody (JArr []))
     end, tt).
Proof.
  intros Hp. unfold Route.POST.
  unfold bind at 1. unfold settle at 1.
  rewrite (bind_normal _ _ _ _ _ Hp).
  unfold try_catch, bind, settle, throw, ret, console_error.
  fold (requestFor prompt).
  destruct (create (requestFor prompt)) as [[|[content] rest]|e];
    try reflexivity.
  simpl. replace (match content with Some ((_ :: _) as s) => s | _ => [] end)
    with (orEmpty content) by (destruct content as [[|]|]; reflexivity).
  destruct (Json.parse (orEmpty content)); reflexivity.
Qed.

(** C5.  When the request to the completion backend fails, [POST] answers
    with status 500 and the body [{"tasks": []}]. *)
Theorem POST_upstream_failure
    (reqBody prompt : jsval) (create : Route.OpenAI) (err : exn) :
  JsValue.getProp reqBody (JsString.lit "prompt") tt = (Normal prompt, tt) ->
  create (requestFor prompt) = Throw err ->
  Route.POST (Normal reqBody) create tt
  = (Normal (Route.mkResponse 500 (tasksBody (JArr []))), tt).
Proof.
  intros Hp Hc. rewrite (POST_run _ _ _ Hp), Hc. reflexivity.
Qed.

(** C5 on the request the page sends, with a backend that is down. *)
Lemma POST_upstream_failure_witness :
  Route.POST (Normal (promptBody (JsString.lit "Plan my weekend"))) failing tt
  = (Normal (Route.mkResponse 500 (tasksBody (JArr []))), tt).
Proof.
  apply (POST_upstream_failure
           (promptBody (JsString.lit "Plan my weekend"))
           (JStr (JsString.lit "Plan my weekend")) failing UpstreamError);
    reflexivity.
Defined.

(* ===================================================================== *)
(** ** The ingestion of generated tasks: [generateWithAI] *)
(* ===================================================================== *)

Lemma keepsHome_ret {A} (a : A) : keepsHome (ret a).
Proof. intros w r w' [= <- <-]. reflexivity. Qed.

Lemma keepsHome_throw {A} (e : exn) : keepsHome (throw (A := A) e).
Proof. intros w r w' [= <- <-]. reflexivity. Qed.

Lemma keepsHome_getId : keepsHome getId.
Proof. intros w r w' [= <- <-]. reflexivity. Qed.

Lemma keepsHome_getProp (v : jsval) (k : jsstring) :
  keepsHome (JsValue.getProp v k).
Proof.
  destruct v; simpl; first [apply keepsHome_throw | apply keepsHome_ret].
Qed.

Lemma keepsHome_bind {A B} (m : M World A) (k : A -> M World B) :
  keepsHome m -> (forall a, keepsHome (k a)) -> keepsHome (bind m k).
Proof.
  intros Hm Hk w r w' E. unfold bind in E.
  destruct (m w) as [[a|e] w1] eqn:E1.
  - apply Hm in E1. apply Hk in E. congruence.
  - apply Hm in E1. inversion E; subst. exact E1.
Qed.

Lemma keepsHome_mapM {A B} (f : A -> M World B) (xs : list A) :
  (forall x, keepsHome (f x)) -> keepsHome (mapM f xs).
Proof.
  intros Hf w r w' E.
  now destruct (mapM_home f xs (fun x => Hf x) w r w' E).
Qed.

Lemma keepsHome_arrayMap {B} (v : jsval) (f : jsval -> M World B) :
  (forall x, keepsHome (f x)) -> keepsHome (JsValue.arrayMap v f).
Proof.
  intros Hf. destruct v; simpl; try apply keepsHome_throw.
  now apply keepsHome_mapM.
Qed.

Lemma keepsHome_todoOfItem (item : jsval) : keepsHome (todoOfItem item).
Proof.
  unfold todoOfItem.
  apply keepsHome_bind; [apply keepsHome_getId | intros i].
  apply keepsHome_bind; [apply keepsHome_getProp | intros text].
  apply keepsHome_bind; [apply keepsHome_getProp | intros subs].
  apply keepsHome_bind; [| intros ss; apply keepsHome_ret].
  apply keepsHome_arrayMap. intros sub.
  apply keepsHome_bind; [apply keepsHome_getId | intros j].
  apply keepsHome_ret.
Qed.

(** The callback of [item.subtasks.map] never throws and keeps the
    elements as texts, in order. *)
Lemma subtasks_run (subs : list jsval) :
  forall w, exists ss w1,
    mapM (fun sub => j <- getId ;; ret (Subtask.mk j sub false)) subs w
    = (Normal ss, w1) /\
    home w1 = home w /\
    List.map Subtask.text ss = subs /\
    Forall (fun s => Subtask.completed s = false) ss.
Proof.
  induction subs as [|sub subs IH]; intros w; simpl.
  - exists [], w. repeat split; constructor.
  - unfold bind at 1. unfold bind at 1. unfold getId at 1. unfold ret at 1.
    match goal with |- context [bind _ _ ?v] =>
      destruct (IH v) as (ss & w1 & R & Hh & Ht & Hc) end.
    rewrite (bind_normal _ _ _ _ _ R). unfold ret.
    eexists _, w1. split; [reflexivity|]. split; [exact Hh|].
    split; [simpl; now rewrite Ht | now constructor].
Qed.

(** The callback of [generatedTodos.map] on one item. *)
Lemma todoOfItem_run (item : jsval) (w : World) :
  exists r w1,
    todoOfItem item w = (r, w1) /\ home w1 = home w /\
    (mappable item = false -> exists e, r = Throw e) /\
    (mappable item = true ->
       exists t props subs,
         r = Normal t /\ item = JObj props /\
         JsValue.lookup (JsString.lit "subtasks") props = JArr subs /\
         Todo.text t = JsValue.lookup (JsString.lit "task") props /\
         Todo.completed t = false /\
         List.map Subtask.text (Todo.subtasks t) = subs /\
         Forall (fun s => Subtask.completed s = false) (Todo.subtasks t)).
Proof.
  assert (thrown : forall e w1, home w1 = home w -> mappable item = false ->
            exists r w2, (Throw (A := Todo.t) e, w1) = (r, w2) /\
              home w2 = home w /\
              (mappable item = false -> exists e, r = Throw e) /\
              (mappable item = true ->
                 exists t props subs,
                   r = Normal t /\ item = JObj props /\
                   JsValue.lookup (JsString.lit "subtasks") props = JArr subs /\
                   Todo.text t = JsValue.lookup (JsString.lit "task") props /\
                   Todo.completed t = false /\
                   List.map Subtask.text (Todo.subtasks t) = subs /\
                   Forall (fun s => Subtask.completed s = false)
                          (Todo.subtasks t))).
  { intros e w1 Hh Hm. exists (Throw e), w1. split; [reflexivity|].
    split; [exact Hh|]. split; [eauto | congruence]. }
  unfold todoOfItem, bind, getId.
  destruct item as [| |b|m e|s|xs|props]; simpl;
    try (apply thrown; reflexivity).
  simpl in thrown. revert thrown.
  destruct (JsValue.lookup (JsString.lit "subtasks") props)
    as [| |b|m e|s|subs|ps] eqn:L; simpl; intros thrown;
    try (apply thrown; reflexivity).
  match goal with |- context [mapM ?f subs ?v] =>
    destruct (subtasks_run subs v) as (ss & w1 & R & Hh & Ht & Hc);
    change (mapM f subs v = (Normal ss, w1)) in R
  end.
  rewrite R. unfold ret. eexists _, w1. split; [reflexivity|].
  split; [exact Hh|]. split; [intros [=]|]. intros _.
  eexists _, props, subs. repeat split; try reflexivity; assumption.
Qed.

(** The mapping of [generateWithAI] over the items of an array: it throws
    when some item is not mappable and yields one task per item otherwise,
    and in both cases has not touched the component state. *)
Lemma todoOfItems_run (items : list jsval) :
  forall w, exists r w1,
    mapM todoOfItem items w = (r, w1) /\ home w1 = home w /\
    (forallb mappable items = false -> exists e, r = Throw e) /\
    (forallb mappable items = true ->
       exists new, r = Normal new /\ length new = length items).
Proof.
  induction items as [|item items IH]; intros w; simpl.
  - exists (Normal []), w. repeat split; [intros [=] | eauto].
  - destruct (todoOfItem_run item w) as (r & w1 & R & Hh & Hf & Ht).
    destruct (mappable item) eqn:Hm; simpl.
    + destruct (Ht eq_refl) as (t & _ & _ & -> & _).
      rewrite (bind_normal _ _ _ _ _ R).
      destruct (IH w1) as (rs & w2 & Rs & Hhs & Hfs & Hts).
      destruct (forallb mappable items) eqn:Hall.
      * destruct (Hts eq_refl) as (new & -> & HL).
        rewrite (bind_normal _ _ _ _ _ Rs). unfold ret.
        eexists _, w2. split; [reflexivity|]. split; [congruence|].
        split; [intros [=]|]. intros _. eexists. split; [reflexivity|].
        simpl. now rewrite HL.
      * destruct (Hfs eq_refl) as (e & ->).
        rewrite (bind_throw _ _ _ _ _ Rs).
        eexists _, w2. split; [reflexivity|]. split; [congruence|].
        split; [eauto | intros [=]].
    + destruct (Hf eq_refl) as (e & ->).
      rewrite (bind_throw _ _ _ _ _ R).
      eexists _, w1. split; [reflexivity|]. split; [exact Hh|].
      split; [eauto | intros [=]].
Qed.

(** [generateWithAI] from the moment the request settles, on any state:
    it returns with the loading flag down; on a reply that is not
    ingestible the store and the prompt box are as they were, and on an
    ingestible one the store has one new task per item in front. *)
Lemma resume_outcome (reply : completion FetchResponse) (w : World) :
  exists w',
    generateWithAI_resume reply w = (Normal tt, w') /\
    loadingAi (home w') = false /\
    (ingestible reply = false ->
       store w' = store w /\ aiInput (home w') = aiInput (home w)) /\
    (ingestible reply = true ->
       exists items new,
         tasksOfReply reply = Some items /\ length new = length items /\
         mapM todoOfItem items w = (Normal new, mkWorld (home w) (clock w')) /\
         store w' = new ++ store w).
Proof.
  unfold generateWithAI_resume, try_finally, try_catch, ingestible.
  assert (failed : tasksOfReply reply = None -> exists w',
            (let (r, s') := (Normal tt, w) in
             let (c, s'') := setLoadingAi false s' in
             match c with
             | Normal _ => (r, s'')
             | Throw e => (Throw e, s'')
             end) = (Normal tt, w') /\
            loadingAi (home w') = false /\
            (false = false ->
               store w' = store w /\ aiInput (home w') = aiInput (home w)) /\
            (false = true ->
               exists items new,
                 None = Some items /\ length new = length items /\
                 mapM todoOfItem items w
                 = (Normal new, mkWorld (home w) (clock w')) /\
                 store w' = new ++ store w)).
  { intros _. eexists. split; [reflexivity|]. simpl.
    repeat split; intros [=]. }
  destruct (tasksOfReply reply) as [items|] eqn:T.
  - clear failed.
    destruct reply as [[[data|e]]|e]; try discriminate T.
    destruct data as [| |b|m e|s|xs|props]; try discriminate T.
    simpl in T. unfold bind, settle. simpl.
    destruct (JsValue.lookup (JsString.lit "tasks") props)
      as [| |b|m e|s|items'|ps] eqn:L; try discriminate T.
    injection T as ->. simpl.
    destruct (todoOfItems_run items w) as (r & w1 & R & Hh & Hf & Ht).
    rewrite R. destruct (forallb mappable items) eqn:Hall.
    + destruct (Ht eq_refl) as (new & -> & HL).
      eexists. split; [reflexivity|]. simpl. split; [reflexivity|].
      split; [intros [=]|]. intros _. exists items, new.
      split; [reflexivity|]. split; [exact HL|]. split.
      * rewrite <- Hh. now destruct w1.
      * unfold store. now rewrite Hh.
    + destruct (Hf eq_refl) as (e & ->).
      eexists. split; [reflexivity|]. simpl. rewrite Hh.
      split; [reflexivity|]. split; [now split | intros [=]].
  - specialize (failed eq_refl).
    destruct reply as [[[data|e]]|e]; simpl; try exact failed.
    destruct data as [| |b|m e|s|xs|props]; simpl; try exact failed.
    simpl in T. unfold bind, settle. simpl.
    destruct (JsValue.lookup (JsString.lit "tasks") props)
      as [| |b|m e|s|items'|ps] eqn:L; try discriminate T; exact failed.
Qed.

Lemma generateWithAI_run (fetch : Fetch) (w : World) :
  JsString.trim (aiInput (home w)) <> [] ->
  generateWithAI fetch w
  = generateWithAI_resume (fetch (promptBody (aiInput (home w))))
      (snd (setLoadingAi true w)).
Proof.
  intros E. unfold generateWithAI. unfold bind at 1. unfold gets at 1.
  unfold JsString.eqb. rewrite bool_decide_eq_false_2 by exact E.
  reflexivity.
Qed.

(** C10.  An invocation of [generateWithAI] that makes a request always
    returns, with the loading flag down.  When the reply cannot be
    ingested (the request failed, the body is not JSON, its [tasks] is
    absent or not an array, or the mapping throws on an item) the store is
    exactly as before; otherwise every item of [tasks] became a task, in
    front of the previous ones. *)
Theorem generateWithAI_all_or_nothing (fetch : Fetch) (w : World) :
  JsString.trim (aiInput (home w)) <> [] ->
  exists w',
    generateWithAI fetch w = (Normal tt, w') /\
    loadingAi (home w') = false /\
    (tasksOfReply (fetch (promptBody (aiInput (home w)))) = None ->
       store w' = store w) /\
    (ingestible (fetch (promptBody (aiInput (home w)))) = false ->
       store w' = store w) /\
    (ingestible (fetch (promptBody (aiInput (home w)))) = true ->
       exists items new,
         tasksOfReply (fetch (promptBody (aiInput (home w)))) = Some items /\
         length new = length items /\ store w' = new ++ store w).
Proof.
  intros E. rewrite (generateWithAI_run fetch w E).
  destruct (resume_outcome (fetch (promptBody (aiInput (home w))))
              (snd (setLoadingAi true w))) as (w' & R & Hl & Hf & Ht).
  exists w'. split; [exact R|]. split; [exact Hl|]. split; [|split].
  - intros T. apply Hf. unfold ingestible. now rewrite T.
  - intros I. now apply Hf.
  - intros I. destruct (Ht I) as (items & new & T & HL & _ & Hs).
    now exists items, new.
Qed.

(** C10 on a reply whose body is not JSON: the task already there is all
    that is left, and the loading flag is down. *)
Lemma generateWithAI_all_or_nothing_witness :
  exists w',
    generateWithAI garbled busy = (Normal tt, w') /\
    loadingAi (home w') = false /\
    store w' = store busy.
Proof.
  destruct (generateWithAI_all_or_nothing garbled busy)
    as (w' & R & Hl & Hn & _); [vm_compute; discriminate|].
  exists w'. split; [exact R|]. split; [exact Hl|].
  apply Hn. reflexivity.
Defined.

(* ===================================================================== *)
(** ** Client and server together *)
(* ===================================================================== *)

Lemma getProp_promptBody (ai : jsstring) :
  JsValue.getProp (promptBody ai) (JsString.lit "prompt") tt
  = (Normal (JStr ai), tt).
Proof. reflexivity. Qed.

(** What the page receives from the route for the prompt [ai]. *)
Lemma fetchFrom_run (create : Route.OpenAI) (ai : jsstring) :
  fetchFrom create (promptBody ai)
  = replyWith (tasksBody (gatewayTasks create (JStr ai))).
Proof.
  unfold fetchFrom. rewrite (POST_run _ _ _ (getProp_promptBody ai)).
  unfold gatewayTasks, replyWith.
  destruct (create (requestFor (JStr ai))) as [[|c r]|e]; reflexivity.
Qed.

Lemma tasksOfReply_replyWith (items : list jsval) :
  tasksOfReply (replyWith (tasksBody (JArr items))) = Some items.
Proof. reflexivity. Qed.

Lemma traverse_asString (subs : list jsval) :
  forall texts, traverse asString subs = Some texts ->
                subs = List.map JStr texts.
Proof.
  induction subs as [|v subs IH]; intros texts E; simpl in E.
  - injection E as <-. reflexivity.
  - destruct v; simpl in E; try discriminate E.
    destruct (traverse asString subs) as [ts|]; [|discriminate E].
    injection E as <-. simpl. f_equal. now apply IH.
Qed.

Lemma subtaskOf_texts (texts : list jsstring) :
  forall ss, List.map Subtask.text ss = List.map JStr texts ->
             Forall (fun s => Subtask.completed s = false) ss ->
             Forall2 subtaskOf texts ss.
Proof.
  induction texts as [|t texts IH]; intros [|s ss] E Hc;
    simpl in E; try discriminate E; [constructor|].
  injection E as E1 E2. inversion Hc; subst.
  constructor; [now split | now apply IH].
Qed.

(** On a record of the expected shape the callback of [generateWithAI]
    does not throw. *)
Lemma asRecord_mappable (item : jsval) (rec : jsstring * list jsstring) :
  asRecord item = Some rec -> mappable item = true.
Proof.
  destruct item as [| |b|m e|s|xs|props]; simpl; try discriminate.
  destruct (JsValue.lookup (JsString.lit "task") props); try discriminate.
  destruct (JsValue.lookup (JsString.lit "subtasks") props);
    try discriminate.
  reflexivity.
Qed.

(** ... and builds the task of the record. *)
Lemma todoOfItem_record (item : jsval) (rec : jsstring * list jsstring)
    (w w1 : World) (t : Todo.t) :
  asRecord item = Some rec ->
  todoOfItem item w = (Normal t, w1) ->
  todoOf rec t.
Proof.
  intros Hr R.
  destruct (todoOfItem_run item w) as (r & w2 & R' & _ & _ & Ht).
  rewrite R in R'. injection R' as <- <-.
  destruct (Ht (asRecord_mappable _ _ Hr))
    as (t' & props & subs & [= <-] & -> & Ls & Htx & Hc & Hs & Hsc).
  simpl in Hr. rewrite Ls in Hr.
  destruct (JsValue.lookup (JsString.lit "task") props) as [| | | |task| |];
    try discriminate Hr.
  destruct (traverse asString subs) as [texts|] eqn:Tr; [|discriminate Hr].
  injection Hr as <-. unfold todoOf. simpl.
  split; [exact Htx|]. split; [exact Hc|].
  apply subtaskOf_texts; [|exact Hsc].
  rewrite Hs. now apply traverse_asString.
Qed.

Lemma todoOfItems_records (items : list jsval) :
  forall recs w new w1,
    traverse asRecord items = Some recs ->
    mapM todoOfItem items w = (Normal new, w1) ->
    Forall2 todoOf recs new.
Proof.
  induction items as [|item items IH]; intros recs w new w1 Hr R;
    simpl in Hr, R.
  - injection Hr as <-. injection R as <- <-. constructor.
  - destruct (asRecord item) as [rec|] eqn:Hi; [|discriminate Hr].
    destruct (traverse asRecord items) as [recs'|] eqn:Hrs;
      [|discriminate Hr].
    injection Hr as <-.
    unfold bind at 1 in R.
    destruct (todoOfItem item w) as [[t|e] w2] eqn:R1; [|discriminate R].
    unfold bind at 1 in R.
    destruct (mapM todoOfItem items w2) as [[ts|e] w3] eqn:R2;
      [|discriminate R].
    injection R as <- <-.
    constructor.
    + exact (todoOfItem_record _ _ _ _ _ Hi R1).
    + exact (IH _ _ _ _ eq_refl R2).
Qed.

Lemma traverse_asRecord_mappable (items : list jsval) :
  forall recs, traverse asRecord items = Some recs ->
               forallb mappable items = true.
Proof.
  induction items as [|item items IH]; intros recs Hr; simpl in *;
    [reflexivity|].
  destruct (asRecord item) as [rec|] eqn:Hi; [|discriminate Hr].
  destruct (traverse asRecord items) as [recs'|]; [|discriminate Hr].
  rewrite (asRecord_mappable _ _ Hi). simpl. now apply (IH recs').
Qed.

Lemma outline_todoOf (recs : list (jsstring * list jsstring)) :
  forall new, Forall2 todoOf recs new ->
    List.map outline new
    = List.map (fun rec => (JStr (fst rec), List.map JStr (snd rec))) recs.
Proof.
  induction recs as [|rec recs IH]; intros new H; inversion H; subst;
    simpl; [reflexivity|].
  f_equal; [|now apply IH].
  match goal with Ht : todoOf _ _ |- _ => destruct Ht as (Htx & _ & Hs) end.
  unfold outline. rewrite Htx. f_equal.
  clear -Hs. induction Hs as [|s sub ss subs [E _] _ IHs]; simpl;
    [reflexivity|]. now rewrite E, IHs.
Qed.

(** C4.  When the backend's text parses as a JSON array of [{task,
    subtasks}] records, the route answers 200 with that array, and the
    page puts one task per record in front of the store, in the order of
    the records: each carries the record's text and one subtask per listed
    string, in order, nothing completed.  On the "Plan trip" answer this
    is one task, "Plan trip", with the subtasks "Book flight" and "Pack
    bags". *)
Theorem generateWithAI_records
    (create : Route.OpenAI) (w : World) (content : option jsstring)
    (rest : list Route.Choice) (items : list jsval)
    (recs : list (jsstring * list jsstring)) :
  JsString.trim (aiInput (home w)) <> [] ->
  create (requestFor (JStr (aiInput (home w))))
  = Normal (Route.mkChoice content :: rest) ->
  Json.parse (orEmpty content) = Normal (JArr items) ->
  traverse asRecord items = Some recs ->
  exists new w',
    Route.POST (Normal (promptBody (aiInput (home w)))) create tt
    = (Normal (Route.mkResponse 200 (tasksBody (JArr items))), tt) /\
    generateWithAI (fetchFrom create) w = (Normal tt, w') /\
    store w' = new ++ store w /\
    length new = length items /\
    Forall2 todoOf recs new /\
    (orEmpty content = planTripAnswer ->
       List.map outline new
       = [(JStr (JsString.lit "Plan trip"),
           [JStr (JsString.lit "Book flight");
            JStr (JsString.lit "Pack bags")])]).
Proof.
  intros E Hc Hp Hr.
  assert (G : gatewayTasks create (JStr (aiInput (home w))) = JArr items).
  { unfold gatewayTasks. rewrite Hc. simpl. now rewrite Hp. }
  rewrite (generateWithAI_run _ w E), fetchFrom_run, G.
  destruct (resume_outcome (replyWith (tasksBody (JArr items)))
              (snd (setLoadingAi true w))) as (w' & R & _ & _ & Ht).
  destruct Ht as (items' & new & T & HL & Rm & Hs).
  { unfold ingestible. rewrite tasksOfReply_replyWith.
    exact (traverse_asRecord_mappable _ _ Hr). }
  rewrite tasksOfReply_replyWith in T. injection T as <-.
  pose proof (todoOfItems_records _ _ _ _ _ Hr Rm) as Hrec.
  exists new, w'. split.
  { rewrite (POST_run _ _ _ (getProp_promptBody _)), Hc. simpl.
    now rewrite Hp. }
  split; [exact R|]. split; [exact Hs|]. split; [exact HL|].
  split; [exact Hrec|].
  intros Ha. rewrite Ha in Hp. vm_compute in Hp. injection Hp as <-.
  vm_compute in Hr. injection Hr as <-.
  rewrite (outline_todoOf _ _ Hrec). reflexivity.
Qed.

(** C4 on the answer of the specification, from a mounted page with a
    prompt typed in. *)
Lemma generateWithAI_records_witness :
  exists w',
    generateWithAI (fetchFrom (answering planTripAnswer))
                   (prompted (JsString.lit "Plan my trip"))
    = (Normal tt, w') /\
    List.map outline (store w')
    = [(JStr (JsString.lit "Plan trip"),
        [JStr (JsString.lit "Book flight"); JStr (JsString.lit "Pack bags")])].
Proof.
  destruct (generateWithAI_records (answering planTripAnswer)
              (prompted (JsString.lit "Plan my trip"))
              (Some planTripAnswer) []
              [JObj [(JsString.lit "task", JStr (JsString.lit "Plan trip"));
                     (JsString.lit "subtasks",
                      JArr [JStr (JsString.lit "Book flight");
                            JStr (JsString.lit "Pack bags")])]]
              [(JsString.lit "Plan trip",
                [JsString.lit "Book flight"; JsString.lit "Pack bags"])])
    as (new & w' & _ & R & Hs & _ & _ & Ho);
    [vm_compute; discriminate | reflexivity | vm_compute; reflexivity
    | vm_compute; reflexivity |].
  exists w'. split; [exact R|].
  rewrite Hs. simpl. rewrite app_nil_r. apply Ho. reflexivity.
Defined.

(** C3, as stated, fails: the answer [[{"task":42,"subtasks":[]}]] is
    valid JSON that is not an array of [{task: string, subtasks:
    string[]}] records, yet the route forwards it, not an empty list, and
    the page adds a task whose text is the number 42. *)
Lemma misshapen_answer_counterexample :
  exists v w',
    Json.parse misshapenAnswer = Normal v /\
    asRecords v = None /\
    Route.POST (Normal (promptBody (JsString.lit "plan")))
               (answering misshapenAnswer) tt
    = (Normal (Route.mkResponse 200 (tasksBody v)), tt) /\
    v <> JArr [] /\
    generateWithAI (fetchFrom (answering misshapenAnswer))
                   (prompted (JsString.lit "plan")) = (Normal tt, w') /\
    store w' = [Todo.mk 100 (JNum 42 0) false []].
Proof.
  eexists _, _. split; [vm_compute; reflexivity|].
  split; [vm_compute; reflexivity|].
  split; [vm_compute; reflexivity|].
  split; [discriminate|].
  split; vm_compute; reflexivity.
Qed.

(** C3, amended.  Once the backend has answered, the route responds with
    status 200 and raises nothing: with an empty task list when the text is
    not valid JSON, with the parsed value as it is, whatever its shape,
    when it is.  The page then either leaves the store as it was or puts
    one task per entry of the forwarded array in front of it, never a
    proper subset. *)
Theorem POST_forwards_parsed
    (reqBody prompt : jsval) (create : Route.OpenAI)
    (content : option jsstring) (rest : list Route.Choice) :
  JsValue.getProp reqBody (JsString.lit "prompt") tt = (Normal prompt, tt) ->
  create (requestFor prompt) = Normal (Route.mkChoice content :: rest) ->
  exists tasks,
    Route.POST (Normal reqBody) create tt
    = (Normal (Route.mkResponse 200 (tasksBody tasks)), tt) /\
    (forall e, Json.parse (orEmpty content) = Throw e -> tasks = JArr []) /\
    (forall v, Json.parse (orEmpty content) = Normal v -> tasks = v) /\
    (forall w, exists w',
       generateWithAI_resume (replyWith (tasksBody tasks)) w
       = (Normal tt, w') /\
       (store w' = store w \/
        exists items new,
          tasks = JArr items /\ length new = length items /\
          store w' = new ++ store w)).
Proof.
  intros Hp Hc. rewrite (POST_run _ _ _ Hp), Hc. simpl.
  eexists. split; [reflexivity|].
  split; [intros e ->; reflexivity|].
  split; [intros v ->; reflexivity|].
  intros w.
  match goal with |- context [replyWith ?b] =>
    destruct (resume_outcome (replyWith b) w) as (w' & R & _ & Hf & Ht);
    destruct (ingestible (replyWith b)) eqn:I
  end; exists w'; (split; [exact R|]).
  - right. destruct (Ht eq_refl) as (items & new & T & HL & _ & Hs).
    exists items, new. split; [|now split].
    simpl in T.
    match type of T with match ?x with _ => _ end = _ =>
      destruct x; try discriminate T end.
    now injection T as ->.
  - left. now apply Hf.
Qed.

(** C3, amended, on the text of the specification: 'not json' gives the
    empty list, with status 200. *)
Lemma POST_forwards_parsed_witness :
  Route.POST (Normal (promptBody (JsString.lit "plan")))
             (answering (JsString.lit "not json")) tt
  = (Normal (Route.mkResponse 200 (tasksBody (JArr []))), tt).
Proof.
  destruct (POST_forwards_parsed (promptBody (JsString.lit "plan"))
              (JStr (JsString.lit "plan"))
              (answering (JsString.lit "not json"))
              (Some (JsString.lit "not json")) [] eq_refl eq_refl)
    as (tasks & R & He & _).
  rewrite R. rewrite (He SyntaxError); reflexivity.
Defined.

(* ===================================================================== *)
(** ** Blank texts *)
(* ===================================================================== *)

(** C2, as stated, fails: the generated tasks are stored with the text
    the backend sent, untrimmed and unchecked.  On the answer
    [[{"task":"","subtasks":["  "]}]] the store, empty before, holds a task
    with an empty text and a subtask made of two spaces. *)
Lemma blank_ingested_counterexample :
  exists w',
    run [TypeAiInput (JsString.lit "plan");
         Generate (fetchFrom (answering blankAnswer))] mounted
    = (Normal tt, w') /\
    noBlank (store mounted) /\
    store w'
    = [Todo.mk 100 (JStr []) false
         [Subtask.mk 101 (JStr (JsString.lit "  ")) false]] /\
    ~ noBlank (store w').
Proof.
  eexists. split; [vm_compute; reflexivity|].
  split; [constructor|]. split; [vm_compute; reflexivity|].
  intros H. inversion H as [|t l [Hb _] _]; subst.
  apply Hb. reflexivity.
Qed.

Lemma addTodo_run (w : World) :
  exists w',
    addTodo w = (Normal tt, w') /\
    (store w' = store w \/
     exists i t, JsString.trim t <> [] /\ store w' = freshTodo i t :: store w).
Proof.
  unfold addTodo. unfold bind at 1. unfold gets at 1. unfold JsString.eqb.
  destruct (decide (JsString.trim (newTodo (home w)) = [])) as [E|E].
  - rewrite bool_decide_eq_true_2 by exact E.
    eexists. split; [reflexivity|]. now left.
  - rewrite bool_decide_eq_false_2 by exact E.
    eexists. split; [reflexivity|]. right.
    eexists _, (newTodo (home w)). split; [exact E | reflexivity].
Qed.

Lemma handleSubtaskSubmit_run (i : number) (w : World) :
  exists w',
    handleSubtaskSubmit i w = (Normal tt, w') /\
    (store w' = store w \/
     exists text, JsString.trim text <> [] /\
       Forall2 (subtaskAdded i (JsString.trim text)) (store w) (store w')).
Proof.
  unfold handleSubtaskSubmit. unfold bind at 1. unfold gets at 1.
  destruct (subtaskInputs (home w) !! i) as [v|];
    cbn [fmap option_fmap option_map];
    [|eexists; split; [reflexivity | now left]].
  destruct (JsString.trim v) as [|c r] eqn:E;
    [eexists; split; [reflexivity | now left]|].
  destruct (addSubtask_run i (c :: r) w) as (l' & c' & R & Hf & _).
  rewrite (bind_normal _ _ _ _ _ R). eexists. split; [reflexivity|].
  right. exists v. rewrite E. split; [discriminate | exact Hf].
Qed.

Lemma noBlank_related (R : Todo.t -> Todo.t -> Prop) :
  (forall a b, R a b -> noBlankTodo a -> noBlankTodo b) ->
  forall l l', Forall2 R l l' -> noBlank l -> noBlank l'.
Proof.
  intros HR l l' H. induction H as [|a b l l' Hab _ IH]; intros Hn.
  - constructor.
  - inversion Hn; subst. constructor; [now apply (HR a b) | now apply IH].
Qed.

Lemma noBlank_others (i : number) (l : list Todo.t) :
  noBlank l -> noBlank (others i l).
Proof.
  unfold others. induction 1 as [|t l Ht Hl IH]; [constructor|].
  rewrite filter_cons. destruct (decide (Todo.id t <> i)); [|exact IH].
  now constructor.
Qed.

Lemma noBlank_toggledTodo (i : number) (a b : Todo.t) :
  toggledTodo i a b -> noBlankTodo a -> noBlankTodo b.
Proof.
  intros (_ & Ht & Hs & _) [Ha Hsa]. unfold noBlankTodo.
  now rewrite Ht, Hs.
Qed.

Lemma noBlank_toggledSubtaskIn (i j : number) (a b : Todo.t) :
  toggledSubtaskIn i j a b -> noBlankTodo a -> noBlankTodo b.
Proof.
  intros (_ & Ht & _ & Hy & Hn) [Ha Hsa].
  destruct (decide (Todo.id a = i)) as [E|E].
  - split; [now rewrite Ht|]. specialize (Hy E). clear -Hy Hsa.
    induction Hy as [|s s' l l' (_ & Hs & _) _ IH]; [constructor|].
    inversion Hsa; subst. constructor; [now rewrite Hs | now apply IH].
  - rewrite (Hn E). now split.
Qed.

Lemma noBlank_subtaskAdded (i : number) (text : jsstring) (a b : Todo.t) :
  JsString.trim text <> [] ->
  subtaskAdded i (JsString.trim text) a b -> noBlankTodo a -> noBlankTodo b.
Proof.
  intros Hne [Hy Hn] [Ha Hsa].
  destruct (decide (Todo.id a = i)) as [E|E].
  - destruct (Hy E) as (k & ->). split; [exact Ha|]. simpl.
    apply Forall_app. split; [exact Hsa|].
    constructor; [|constructor]. now apply trimmed_not_blank.
  - rewrite (Hn E). now split.
Qed.

(** An event other than the ingestion returns and keeps the store free of
    blank texts. *)
Lemma perform_user (a : Action) (w : World) :
  userAction a = true -> noBlank (store w) ->
  exists w', perform a w = (Normal tt, w') /\ noBlank (store w').
Proof.
  intros Hu Hn. destruct a; simpl in *; try discriminate Hu.
  - eexists. split; [reflexivity | exact Hn].
  - destruct (addTodo_run w) as (w' & R & [E | (i & t & Hne & E)]);
      exists w'; (split; [exact R|]); rewrite E; [exact Hn|].
    constructor; [|exact Hn]. split; [|constructor].
    now apply trimmed_not_blank.
  - destruct (toggleTodo_run id w) as (w' & R & H).
    exists w'. split; [exact R|].
    exact (noBlank_related _ (noBlank_toggledTodo id) _ _ H Hn).
  - destruct (deleteTodo_run id w) as (w' & R & E).
    exists w'. split; [exact R|]. rewrite E. now apply noBlank_others.
  - eexists. split; [reflexivity | exact Hn].
  - destruct (handleSubtaskSubmit_run todoId w)
      as (w' & R & [E | (text & Hne & H)]);
      exists w'; (split; [exact R|]); [now rewrite E|].
    exact (noBlank_related _
             (fun a b => noBlank_subtaskAdded todoId text a b Hne) _ _ H Hn).
  - destruct (toggleSubtask_run todoId subtaskId w) as (w' & R & H).
    exists w'. split; [exact R|].
    exact (noBlank_related _ (noBlank_toggledSubtaskIn todoId subtaskId)
             _ _ H Hn).
  - eexists. split; [reflexivity | exact Hn].
Qed.

(** C2, amended.  Over every session made of the page's events other than
    the ingestion of generated tasks (typing, adding a task, submitting a
    subtask, the toggles, deleting), every event returns and a store
    without blank texts stays so: the two creation paths fed by the user
    trim the text and reject it when nothing is left. *)
Theorem user_actions_keep_noBlank (acts : list Action) (w : World) :
  forallb userAction acts = true ->
  noBlank (store w) ->
  exists w', run acts w = (Normal tt, w') /\ noBlank (store w').
Proof.
  revert w. induction acts as [|a acts IH]; intros w Hu Hn; simpl in *.
  - exists w. split; [reflexivity | exact Hn].
  - apply andb_prop in Hu as [Ha Hu].
    destruct (perform_user a w Ha Hn) as (w1 & R1 & Hn1).
    destruct (IH w1 Hu Hn1) as (w' & R & Hn').
    exists w'. split; [|exact Hn'].
    rewrite (bind_normal _ _ _ _ _ R1). exact R.
Qed.

(** C2, amended, on a session that tries blank texts on both paths: only
    the two proper entries are created, trimmed. *)
Lemma user_actions_keep_noBlank_witness :
  exists w',
    run [TypeNewTodo (JsString.lit "   "); AddTodo;
         TypeNewTodo (JsString.lit " Walk dog "); AddTodo;
         TypeSubtask 100 (JsString.lit "  "); SubmitSubtask 100;
         TypeSubtask 100 (JsString.lit " leash"); SubmitSubtask 100;
         ToggleSubtask 100 101; ToggleTodo 100] mounted
    = (Normal tt, w') /\
    noBlank (store w') /\
    List.map outline (store w')
    = [(JStr (JsString.lit "Walk dog"), [JStr (JsString.lit "leash")])].
Proof.
  destruct (user_actions_keep_noBlank
    [TypeNewTodo (JsString.lit "   "); AddTodo;
     TypeNewTodo (JsString.lit " Walk dog "); AddTodo;
     TypeSubtask 100 (JsString.lit "  "); SubmitSubtask 100;
     TypeSubtask 100 (JsString.lit " leash"); SubmitSubtask 100;
     ToggleSubtask 100 101; ToggleTodo 100] mounted eq_refl)
    as (w' & R & Hn); [constructor|].
  exists w'. split; [exact R|]. split; [exact Hn|].
  vm_compute in R. injection R as <-. vm_compute. reflexivity.
Defined.

(* ===================================================================== *)
(** ** Further properties: the input boxes *)
(* ===================================================================== *)

(** X1.  [addTodo] on a blank box changes nothing at all, the blanks stay
    in the box and no identifier is drawn; on any other text it empties
    the box, draws one identifier, and leaves the subtask boxes, the
    prompt and the two flags as they were. *)
Theorem addTodo_cells (w : World) :
  exists w',
    addTodo w = (Normal tt, w') /\
    (JsString.trim (newTodo (home w)) = [] -> w' = w) /\
    (JsString.trim (newTodo (home w)) <> [] ->
       newTodo (home w') = [] /\
       subtaskInputs (home w') = subtaskInputs (home w) /\
       aiInput (home w') = aiInput (home w) /\
       showAI (home w') = showAI (home w) /\
       loadingAi (home w') = loadingAi (home w) /\
       ticks (clock w') = S (ticks (clock w)) /\
       id_at (clock w') = id_at (clock w)).
Proof.
  unfold addTodo. unfold bind at 1. unfold gets at 1. unfold JsString.eqb.
  destruct (decide (JsString.trim (newTodo (home w)) = [])) as [E|E].
  - rewrite bool_decide_eq_true_2 by exact E.
    exists w. split; [reflexivity|]. split; [reflexivity | contradiction].
  - rewrite bool_decide_eq_false_2 by exact E.
    eexists. split; [reflexivity|]. split; [contradiction|].
    intros _. simpl. repeat split.
Qed.

(** X2.  The Generate button has two guards.  While the loading flag is
    up (the button is disabled) or when the prompt is blank, a click does
    nothing: whatever the network would answer, no request is made, no
    identifier is drawn and the state is the one it started from. *)
Theorem generate_guards (fetch : Fetch) (w : World) :
  loadingAi (home w) = true \/ JsString.trim (aiInput (home w)) = [] ->
  perform (Generate fetch) w = (Normal tt, w).
Proof.
  intros H. simpl. unfold bind at 1. unfold gets at 1.
  destruct (loadingAi (home w)); [reflexivity|].
  destruct H as [H|E]; [discriminate H|].
  unfold generateWithAI. unfold bind at 1. unfold gets at 1.
  unfold JsString.eqb. now rewrite bool_decide_eq_true_2 by exact E.
Qed.

(** X2 on a prompt made of spaces, with a task in the store. *)
Lemma generate_guards_witness :
  perform (Generate (fetchFrom (answering planTripAnswer)))
    (snd (setAiInput (JsString.lit "   ") busy))
  = (Normal tt, snd (setAiInput (JsString.lit "   ") busy)).
Proof.
  apply (generate_guards (fetchFrom (answering planTripAnswer))
           (snd (setAiInput (JsString.lit "   ") busy))).
  right. reflexivity.
Defined.

(* ===================================================================== *)
(** ** Further properties: how the edits of the store compose *)
(* ===================================================================== *)

Lemma toggleTodo_flip (i : number) (w : World) :
  toggleTodo i w = (Normal tt, withStore (List.map (flipTodo i) (store w)) w).
Proof. reflexivity. Qed.

Lemma toggleSubtask_flip (i j : number) (w : World) :
  toggleSubtask i j w
  = (Normal tt, withStore (List.map (flipSubtaskIn i j) (store w)) w).
Proof. reflexivity. Qed.

Lemma deleteTodo_others (i : number) (w : World) :
  deleteTodo i w = (Normal tt, withStore (others i (store w)) w).
Proof. unfold deleteTodo. now rewrite setTodos_run, others_filter. Qed.

Lemma flipSubtask_twice (j : number) (sub : Subtask.t) :
  flipSubtask j (flipSubtask j sub) = sub.
Proof.
  destruct sub as [k t c]. unfold flipSubtask. simpl.
  destruct (Z.eqb k j) eqn:E; simpl; rewrite E; [|reflexivity].
  now rewrite negb_involutive.
Qed.

Lemma flipSubtaskIn_twice (i j : number) (todo : Todo.t) :
  flipSubtaskIn i j (flipSubtaskIn i j todo) = todo.
Proof.
  destruct todo as [k t c s]. unfold flipSubtaskIn. simpl.
  destruct (Z.eqb k i) eqn:E; simpl; rewrite E; [|reflexivity].
  f_equal. rewrite List.map_map.
  rewrite (List.map_ext _ (fun x => x)); [apply List.map_id|].
  apply flipSubtask_twice.
Qed.

(** X3.  [toggleSubtask(taskId, subtaskId)] twice gives back the state it
    started from, for every pair of identifiers. *)
Theorem toggleSubtask_twice (taskId subtaskId : number) (w : World) :
  exists w1,
    toggleSubtask taskId subtaskId w = (Normal tt, w1) /\
    toggleSubtask taskId subtaskId w1 = (Normal tt, w).
Proof.
  rewrite toggleSubtask_flip. eexists. split; [reflexivity|].
  rewrite toggleSubtask_flip, store_withStore, withStore_twice.
  rewrite List.map_map.
  rewrite (List.map_ext _ (fun t => t)), List.map_id, withStore_same;
    [reflexivity|].
  apply flipSubtaskIn_twice.
Qed.

Lemma flipTodo_id (i : number) (t : Todo.t) : Todo.id (flipTodo i t) = Todo.id t.
Proof. unfold flipTodo. now destruct (Z.eqb (Todo.id t) i). Qed.

Lemma flipSubtaskIn_id (i j : number) (t : Todo.t) :
  Todo.id (flipSubtaskIn i j t) = Todo.id t.
Proof. unfold flipSubtaskIn. now destruct (Z.eqb (Todo.id t) i). Qed.

Lemma flipSubtask_id (j : number) (s : Subtask.t) :
  Subtask.id (flipSubtask j s) = Subtask.id s.
Proof. unfold flipSubtask. now destruct (Z.eqb (Subtask.id s) j). Qed.

Lemma flipTodo_comm (i j : number) (t : Todo.t) :
  flipTodo i (flipTodo j t) = flipTodo j (flipTodo i t).
Proof.
  destruct t as [k x c s]. unfold flipTodo. simpl.
  destruct (Z.eqb k i) eqn:Ei, (Z.eqb k j) eqn:Ej; simpl;
    rewrite ?Ei, ?Ej; reflexivity.
Qed.

Lemma flipSubtask_comm (i j : number) (s : Subtask.t) :
  flipSubtask i (flipSubtask j s) = flipSubtask j (flipSubtask i s).
Proof.
  destruct s as [k x c]. unfold flipSubtask. simpl.
  destruct (Z.eqb k i) eqn:Ei, (Z.eqb k j) eqn:Ej; simpl;
    rewrite ?Ei, ?Ej; reflexivity.
Qed.

Lemma flipTodo_flipSubtaskIn (i j k : number) (t : Todo.t) :
  flipTodo i (flipSubtaskIn j k t) = flipSubtaskIn j k (flipTodo i t).
Proof.
  destruct t as [n x c s]. unfold flipTodo, flipSubtaskIn. simpl.
  destruct (Z.eqb n i) eqn:Ei, (Z.eqb n j) eqn:Ej; simpl;
    rewrite ?Ei, ?Ej; reflexivity.
Qed.

Lemma flipSubtaskIn_comm (i j k l : number) (t : Todo.t) :
  flipSubtaskIn i j (flipSubtaskIn k l t)
  = flipSubtaskIn k l (flipSubtaskIn i j t).
Proof.
  destruct t as [n x c s]. unfold flipSubtaskIn. simpl.
  destruct (Z.eqb n i) eqn:Ei, (Z.eqb n k) eqn:Ek; simpl;
    rewrite ?Ei, ?Ek; try reflexivity.
  f_equal. rewrite !List.map_map. apply List.map_ext.
  intros s0. apply flipSubtask_comm.
Qed.

Lemma others_map (i : number) (f : Todo.t -> Todo.t) (l : list Todo.t) :
  (forall t, Todo.id (f t) = Todo.id t) ->
  others i (List.map f l) = List.map f (others i l).
Proof.
  intros Hf. unfold others. induction l as [|t l IH]; [reflexivity|].
  simpl. rewrite !filter_cons, Hf.
  destruct (decide (Todo.id t <> i)); simpl; now rewrite IH.
Qed.

Lemma others_comm (i j : number) (l : list Todo.t) :
  others i (others j l) = others j (others i l).
Proof.
  unfold others. induction l as [|t l IH]; [reflexivity|].
  rewrite !filter_cons.
  destruct (decide (Todo.id t <> j)), (decide (Todo.id t <> i));
    rewrite ?filter_cons, ?decide_True, ?decide_False by assumption;
    now rewrite IH.
Qed.

Lemma map_commute {A} (f g : A -> A) (l : list A) :
  (forall x, f (g x) = g (f x)) ->
  List.map f (List.map g l) = List.map g (List.map f l).
Proof. intros H. rewrite !List.map_map. now apply List.map_ext. Qed.

(** X4.  Toggling a task, deleting a task and toggling a subtask commute
    with one another: two such events give the same state in either
    order, whatever identifiers they name. *)
Theorem store_edits_commute (a b : Action) (w : World) :
  storeEdit a = true -> storeEdit b = true ->
  (perform a ;;; perform b) w = (perform b ;;; perform a) w.
Proof.
  intros Ha Hb. unfold bind.
  destruct a; try discriminate Ha; destruct b; try discriminate Hb;
    cbn [perform];
    rewrite ?toggleTodo_flip, ?deleteTodo_others, ?toggleSubtask_flip;
    rewrite ?toggleTodo_flip, ?deleteTodo_others, ?toggleSubtask_flip;
    rewrite !store_withStore, !withStore_twice; do 2 f_equal.
  - apply map_commute. intros t. apply flipTodo_comm.
  - apply others_map, flipTodo_id.
  - apply map_commute. intros t. symmetry. apply flipTodo_flipSubtaskIn.
  - symmetry. apply others_map, flipTodo_id.
  - apply others_comm.
  - symmetry. apply others_map, flipSubtaskIn_id.
  - apply map_commute. intros t. apply flipTodo_flipSubtaskIn.
  - apply others_map, flipSubtaskIn_id.
  - apply map_commute. intros t. apply flipSubtaskIn_comm.
Qed.

(** X4 on a store of two tasks, one with a subtask: deleting the first
    task and toggling the subtask of the second commute. *)
Lemma store_edits_commute_witness :
  (perform (DeleteTodo 100) ;;; perform (ToggleSubtask 101 102))
    (snd (run [TypeNewTodo (JsString.lit "a"); AddTodo;
               TypeNewTodo (JsString.lit "b"); AddTodo;
               TypeSubtask 101 (JsString.lit "c"); SubmitSubtask 101]
              mounted))
  = (perform (ToggleSubtask 101 102) ;;; perform (DeleteTodo 100))
    (snd (run [TypeNewTodo (JsString.lit "a"); AddTodo;
               TypeNewTodo (JsString.lit "b"); AddTodo;
               TypeSubtask 101 (JsString.lit "c"); SubmitSubtask 101]
              mounted)).
Proof.
  apply (store_edits_commute (DeleteTodo 100) (ToggleSubtask 101 102));
    reflexivity.
Defined.

(** X5.  Adding a task and then deleting the identifier it was given
    gives back the store as it was, provided no task already there has
    that identifier. *)
Theorem addTask_then_deleteTodo (t : jsstring) (w : World) :
  JsString.trim t <> [] ->
  Forall (fun x => Todo.id x <> id_at (clock w) (ticks (clock w))) (store w) ->
  exists w1 w2,
    addTask t w = (Normal tt, w1) /\
    deleteTodo (id_at (clock w) (ticks (clock w))) w1 = (Normal tt, w2) /\
    store w2 = store w.
Proof.
  intros Ht Hfresh.
  destruct (addTask_fresh t w Ht) as (w1 & R1 & E1).
  exists w1. eexists. split; [exact R1|].
  rewrite deleteTodo_others. split; [reflexivity|].
  rewrite store_withStore, E1. unfold others.
  rewrite filter_cons, decide_False by (simpl; tauto).
  now apply others_absent.
Qed.

(** X5 from the empty store. *)
Lemma addTask_then_deleteTodo_witness :
  exists w1 w2,
    addTask (JsString.lit "Buy milk") mounted = (Normal tt, w1) /\
    deleteTodo 100 w1 = (Normal tt, w2) /\
    store w2 = [].
Proof.
  apply (addTask_then_deleteTodo (JsString.lit "Buy milk") mounted).
  - vm_compute. discriminate.
  - constructor.
Defined.

(* ===================================================================== *)
(** ** Further properties: the route *)
(* ===================================================================== *)

Lemma getProp_field (reqBody : jsval) (k : jsstring) :
  reqBody <> JNull -> reqBody <> JUndefined ->
  JsValue.getProp (S := unit) reqBody k tt = (Normal (fieldOf k reqBody), tt).
Proof. intros Hn Hu. destruct reqBody; try reflexivity; contradiction. Qed.

(** X6.  [POST] throws exactly when the request body cannot be read: a
    rejected [req.json()] or a [null] body escape the handler, because the
    body is read before the [try].  On every other body it responds: the
    status is 200 when the backend returned at least one choice and 500
    otherwise, the body always has the shape [{tasks: ...}], and with 500
    the tasks are the empty array. *)
Theorem POST_outcomes (create : Route.OpenAI) :
  (forall e, Route.POST (Throw e) create tt = (Throw e, tt)) /\
  Route.POST (Normal JNull) create tt = (Throw TypeError, tt) /\
  (forall reqBody, reqBody <> JNull -> reqBody <> JUndefined ->
     exists status tasks,
       Route.POST (Normal reqBody) create tt
       = (Normal (Route.mkResponse status (tasksBody tasks)), tt) /\
       (status = 200%Z \/ status = 500%Z /\ tasks = JArr []) /\
       (status = 200%Z <->
        exists choice rest,
          create (requestFor (fieldOf (JsString.lit "prompt") reqBody))
          = Normal (choice :: rest))).
Proof.
  split; [reflexivity|]. split; [reflexivity|].
  intros reqBody Hn Hu.
  rewrite (POST_run _ _ _ (getProp_field reqBody _ Hn Hu)).
  destruct (create (requestFor (fieldOf (JsString.lit "prompt") reqBody)))
    as [[|choice rest]|e]; eexists _, _; (split; [reflexivity|]).
  - split; [right; now split|]. split; [discriminate|].
    intros (c & r & [=]).
  - split; [now left|]. split; [eauto | reflexivity].
  - split; [right; now split|]. split; [discriminate|].
    intros (c & r & [=]).
Qed.

(* ===================================================================== *)
(** ** Further properties: the ingestion *)
(* ===================================================================== *)

(** [generateWithAI] from the moment the request settles, with the state
    it ends in written out. *)
Lemma resume_explicit (reply : completion FetchResponse) (w : World) :
  (ingestible reply = false ->
     exists c',
       generateWithAI_resume reply w
       = (Normal tt,
          mkWorld (mkHome (todos (home w)) (newTodo (home w))
                          (subtaskInputs (home w)) (aiInput (home w))
                          (showAI (home w)) false) c')) /\
  (ingestible reply = true ->
     exists items new c',
       tasksOfReply reply = Some items /\
       mapM todoOfItem items w = (Normal new, mkWorld (home w) c') /\
       generateWithAI_resume reply w
       = (Normal tt,
          mkWorld (mkHome (new ++ todos (home w)) (newTodo (home w))
                          (subtaskInputs (home w)) []
                          (showAI (home w)) false) c')).
Proof.
  unfold generateWithAI_resume, try_finally, try_catch, ingestible.
  assert (failed : tasksOfReply reply = None ->
            (false = false ->
             exists c',
               (let (r, s') := (Normal tt, w) in
                let (c, s'') := setLoadingAi false s' in
                match c with
                | Normal _ => (r, s'')
                | Throw e => (Throw e, s'')
                end)
               = (Normal tt,
                  mkWorld (mkHome (todos (home w)) (newTodo (home w))
                             (subtaskInputs (home w)) (aiInput (home w))
                             (showAI (home w)) false) c')) /\
            (false = true ->
             exists items new c',
               None = Some items /\
               mapM todoOfItem items w = (Normal new, mkWorld (home w) c') /\
               (let (r, s') := (Normal tt, w) in
                let (c, s'') := setLoadingAi false s' in
                match c with
                | Normal _ => (r, s'')
                | Throw e => (Throw e, s'')
                end)
               = (Normal tt,
                  mkWorld (mkHome (new ++ todos (home w)) (newTodo (home w))
                             (subtaskInputs (home w)) []
                             (showAI (home w)) false) c'))).
  { intros _. split; [|intros [=]]. intros _. eexists. reflexivity. }
  destruct (tasksOfReply reply) as [items|] eqn:T.
  - clear failed.
    destruct reply as [[[data|e]]|e]; try discriminate T.
    destruct data as [| |b|m e|s|xs|props]; try discriminate T.
    simpl in T. unfold bind, settle. simpl.
    destruct (JsValue.lookup (JsString.lit "tasks") props)
      as [| |b|m e|s|items'|ps] eqn:L; try discriminate T.
    injection T as ->. simpl.
    destruct (todoOfItems_run items w) as (r & w1 & R & Hh & Hf & Ht).
    rewrite R. destruct (forallb mappable items) eqn:Hall.
    + destruct (Ht eq_refl) as (new & -> & HL).
      split; [intros [=]|]. intros _. exists items, new, (clock w1).
      split; [reflexivity|]. split.
      * rewrite <- Hh. now destruct w1.
      * simpl. now rewrite Hh.
    + destruct (Hf eq_refl) as (e & ->).
      split; [|intros [=]]. intros _. exists (clock w1).
      simpl. now rewrite Hh.
  - specialize (failed eq_refl).
    destruct reply as [[[data|e]]|e]; simpl; try exact failed.
    destruct data as [| |b|m e|s|xs|props]; simpl; try exact failed.
    simpl in T. unfold bind, settle. simpl.
    destruct (JsValue.lookup (JsString.lit "tasks") props)
      as [| |b|m e|s|items'|ps] eqn:L; try discriminate T; exact failed.
Qed.

(** X7.  An invocation of [generateWithAI] that makes a request never
    touches the task box, the subtask boxes or the panel flag; it empties
    the prompt box when the reply was ingested and keeps the prompt, for
    another try, when it was not. *)
Theorem generateWithAI_prompt_box (fetch : Fetch) (w : World) :
  JsString.trim (aiInput (home w)) <> [] ->
  exists w',
    generateWithAI fetch w = (Normal tt, w') /\
    newTodo (home w') = newTodo (home w) /\
    subtaskInputs (home w') = subtaskInputs (home w) /\
    showAI (home w') = showAI (home w) /\
    (ingestible (fetch (promptBody (aiInput (home w)))) = true ->
       aiInput (home w') = []) /\
    (ingestible (fetch (promptBody (aiInput (home w)))) = false ->
       aiInput (home w') = aiInput (home w)).
Proof.
  intros E. rewrite (generateWithAI_run fetch w E).
  destruct (resume_explicit (fetch (promptBody (aiInput (home w))))
              (snd (setLoadingAi true w))) as [Hf Ht].
  destruct (ingestible (fetch (promptBody (aiInput (home w))))).
  - destruct (Ht eq_refl) as (items & new & c' & _ & _ & R).
    eexists. split; [exact R|]. simpl. repeat split. intros [=].
  - destruct (Hf eq_refl) as (c' & R).
    eexists. split; [exact R|]. simpl. repeat split. intros [=].
Qed.

(** X7 on a reply that is not JSON: the prompt is still in its box. *)
Lemma generateWithAI_prompt_box_witness :
  exists w',
    generateWithAI garbled busy = (Normal tt, w') /\
    aiInput (home w') = JsString.lit "Plan my weekend".
Proof.
  destruct (generateWithAI_prompt_box garbled busy)
    as (w' & R & _ & _ & _ & _ & Hk); [vm_compute; discriminate|].
  exists w'. split; [exact R|]. apply Hk. reflexivity.
Defined.

(** X8.  The page does not see a failure of the backend.  When the
    completion request fails, returns no choice, or returns a text that is
    not JSON, the route's answer is ingested as zero tasks: the store is as
    before, the loading flag is down, and the prompt box is emptied as
    after a successful generation. *)
Theorem backend_failure_clears_prompt (create : Route.OpenAI) (w : World) :
  JsString.trim (aiInput (home w)) <> [] ->
  (exists e, create (requestFor (JStr (aiInput (home w)))) = Throw e) \/
  create (requestFor (JStr (aiInput (home w)))) = Normal [] \/
  (exists content rest e,
     create (requestFor (JStr (aiInput (home w))))
     = Normal (Route.mkChoice content :: rest) /\
     Json.parse (orEmpty content) = Throw e) ->
  exists w',
    generateWithAI (fetchFrom create) w = (Normal tt, w') /\
    store w' = store w /\
    aiInput (home w') = [] /\
    loadingAi (home w') = false.
Proof.
  intros E Hfail.
  assert (G : gatewayTasks create (JStr (aiInput (home w))) = JArr []).
  { unfold gatewayTasks.
    destruct Hfail as [(e & ->) | [-> | (content & rest & e & -> & Hp)]];
      try reflexivity.
    simpl. now rewrite Hp. }
  rewrite (generateWithAI_run _ w E), fetchFrom_run, G.
  destruct (resume_explicit (replyWith (tasksBody (JArr [])))
              (snd (setLoadingAi true w))) as [_ Ht].
  destruct (Ht eq_refl) as (items & new & c' & T & Rm & R).
  injection T as <-. simpl in Rm. injection Rm as <- _.
  eexists. split; [exact R|]. repeat split.
Qed.

(** X8 with a backend that is down. *)
Lemma backend_failure_clears_prompt_witness :
  exists w',
    generateWithAI (fetchFrom failing) busy = (Normal tt, w') /\
    store w' = store busy /\
    aiInput (home w') = [] /\
    loadingAi (home w') = false.
Proof.
  apply (backend_failure_clears_prompt failing busy).
  - vm_compute. discriminate.
  - left. exists UpstreamError. reflexivity.
Defined.

Lemma todoOfItems_outline (items : list jsval) :
  forall w new w1,
    mapM todoOfItem items w = (Normal new, w1) ->
    List.map outline new = List.map rawOutline items /\ Forall pending new.
Proof.
  induction items as [|item items IH]; intros w new w1 R; simpl in R.
  - injection R as <- _. split; constructor.
  - unfold bind at 1 in R.
    destruct (todoOfItem item w) as [[t|e] w2] eqn:R1; [|discriminate R].
    unfold bind at 1 in R.
    destruct (mapM todoOfItem items w2) as [[ts|e] w3] eqn:R2;
      [|discriminate R].
    injection R as <- _.
    destruct (IH _ _ _ R2) as [Ho Hp].
    destruct (todoOfItem_run item w) as (r & w4 & R' & _ & Hthrow & Hok).
    rewrite R1 in R'. injection R' as <- <-.
    destruct (mappable item) eqn:Hm;
      [|destruct (Hthrow eq_refl) as (e & [=])].
    destruct (Hok eq_refl)
      as (t' & props & subs & [= <-] & -> & Ls & Htx & Hc & Hs & Hsc).
    split.
    + simpl. f_equal; [|exact Ho].
      unfold outline, rawOutline. simpl. now rewrite Htx, Hs, Ls.
    + constructor; [now split | exact Hp].
Qed.

(** X9.  Whatever the items of an ingested reply hold, each becomes a task
    that carries [item.task] as its text and the elements of
    [item.subtasks] as the texts of its subtasks, as they are: not
    trimmed, not checked to be strings, and nothing completed. *)
Theorem ingestion_verbatim (reply : completion FetchResponse) (w : World) :
  ingestible reply = true ->
  exists items new w',
    tasksOfReply reply = Some items /\
    generateWithAI_resume reply w = (Normal tt, w') /\
    store w' = new ++ store w /\
    List.map outline new = List.map rawOutline items /\
    Forall pending new.
Proof.
  intros I. destruct (resume_explicit reply w) as [_ Ht].
  destruct (Ht I) as (items & new & c' & T & Rm & R).
  destruct (todoOfItems_outline _ _ _ _ Rm) as [Ho Hp].
  exists items, new. eexists. split; [exact T|]. split; [exact R|].
  now repeat split.
Qed.

(** X9 on an item whose text is a number and whose subtask is [null]. *)
Lemma ingestion_verbatim_witness :
  exists w',
    generateWithAI_resume
      (replyWith (tasksBody (JArr
         [JObj [(JsString.lit "task", JNum 42 0);
                (JsString.lit "subtasks", JArr [JNull])]])))
      mounted = (Normal tt, w') /\
    List.map outline (store w') = [(JNum 42 0, [JNull])].
Proof.
  destruct (ingestion_verbatim
    (replyWith (tasksBody (JArr
       [JObj [(JsString.lit "task", JNum 42 0);
              (JsString.lit "subtasks", JArr [JNull])]])))
    mounted eq_refl) as (items & new & w' & T & R & Hs & Ho & _).
  exists w'. split; [exact R|].
  injection T as <-. rewrite Hs. simpl. rewrite app_nil_r. exact Ho.
Defined.

(* ===================================================================== *)
(** ** Further properties: the subtask form and whole sessions *)
(* ===================================================================== *)

Lemma boxBlank_cases (i : number) (w : World) :
  match JsString.trim <$> (subtaskInputs (home w) !! i) with
  | None | Some [] => boxBlank i w
  | Some (_ :: _) => ~ boxBlank i w
  end.
Proof.
  unfold boxBlank. destruct (subtaskInputs (home w) !! i) as [v|]; simpl.
  - destruct (JsString.trim v) as [|c r] eqn:E.
    + intros v' [= <-]. exact E.
    + intros H. specialize (H v eq_refl). congruence.
  - intros v [=].
Qed.

Lemma boxBlank_dec (i : number) (w : World) :
  boxBlank i w \/ ~ boxBlank i w.
Proof.
  pose proof (boxBlank_cases i w) as H.
  destruct (JsString.trim <$> (subtaskInputs (home w) !! i)) as [[|c r]|];
    tauto.
Qed.

(** [handleSubtaskSubmit] with the state it ends in written out. *)
Lemma handleSubtaskSubmit_cells (i : number) (w : World) :
  exists w',
    handleSubtaskSubmit i w = (Normal tt, w') /\
    (boxBlank i w -> w' = w) /\
    (~ boxBlank i w ->
       subtaskInputs (home w') = <[i := []]> (subtaskInputs (home w)) /\
       newTodo (home w') = newTodo (home w) /\
       aiInput (home w') = aiInput (home w) /\
       showAI (home w') = showAI (home w) /\
       loadingAi (home w') = loadingAi (home w)).
Proof.
  pose proof (boxBlank_cases i w) as Hb.
  unfold handleSubtaskSubmit. unfold bind at 1. unfold gets at 1.
  destruct (JsString.trim <$> (subtaskInputs (home w) !! i)) as [[|c r]|].
  - exists w. split; [reflexivity|]. split; [reflexivity | contradiction].
  - destruct (addSubtask_run i (c :: r) w) as (l' & c' & R & _ & _).
    rewrite (bind_normal _ _ _ _ _ R). eexists. split; [reflexivity|].
    split; [contradiction|]. intros _. simpl. repeat split.
  - exists w. split; [reflexivity|]. split; [reflexivity | contradiction].
Qed.

(** X10.  Submitting a subtask form whose box is empty, blank or untouched
    changes nothing at all: the blanks stay in the box.  Otherwise the box
    of that task is emptied, every other subtask box keeps its text, and
    the task box, the prompt and the flags are as they were; this holds
    whether or not a task with that identifier exists. *)
Theorem handleSubtaskSubmit_boxes (todoId : number) (w : World) :
  exists w',
    handleSubtaskSubmit todoId w = (Normal tt, w') /\
    (boxBlank todoId w -> w' = w) /\
    (~ boxBlank todoId w ->
       subtaskInputs (home w') !! todoId = Some [] /\
       (forall j, j <> todoId ->
          subtaskInputs (home w') !! j = subtaskInputs (home w) !! j) /\
       newTodo (home w') = newTodo (home w) /\
       aiInput (home w') = aiInput (home w) /\
       showAI (home w') = showAI (home w) /\
       loadingAi (home w') = loadingAi (home w)).
Proof.
  destruct (handleSubtaskSubmit_cells todoId w) as (w' & R & Hb & Hn).
  exists w'. split; [exact R|]. split; [exact Hb|].
  intros H. destruct (Hn H) as (Hi & H1 & H2 & H3 & H4).
  rewrite Hi. split; [apply lookup_insert_eq|].
  split; [|now repeat split].
  intros j Hj. now apply lookup_insert_ne.
Qed.

Lemma addTodo_flag (w : World) :
  exists w', addTodo w = (Normal tt, w') /\
             loadingAi (home w') = loadingAi (home w).
Proof.
  unfold addTodo. unfold bind at 1. unfold gets at 1.
  destruct (JsString.eqb (JsString.trim (newTodo (home w))) []);
    eexists; split; reflexivity.
Qed.

(** Every event returns, and none raises the loading flag for good. *)
Lemma perform_returns (a : Action) (w : World) :
  exists w',
    perform a w = (Normal tt, w') /\
    (loadingAi (home w) = false -> loadingAi (home w') = false).
Proof.
  destruct a; simpl; try (eexists; split; [reflexivity | tauto]).
  - destruct (addTodo_flag w) as (w' & R & E). exists w'.
    split; [exact R | congruence].
  - destruct (handleSubtaskSubmit_cells todoId w) as (w' & R & Hb & Hn).
    exists w'. split; [exact R|]. intros Hl.
    destruct (boxBlank_dec todoId w) as [B|B].
    + now rewrite (Hb B).
    + destruct (Hn B) as (_ & _ & _ & _ & E). congruence.
  - unfold bind at 1. unfold gets at 1.
    destruct (loadingAi (home w)) eqn:L;
      [exists w; split; [reflexivity | intros [=]]|].
    destruct (decide (JsString.trim (aiInput (home w)) = [])) as [E|E].
    + unfold generateWithAI. unfold bind at 1. unfold gets at 1.
      unfold JsString.eqb. rewrite bool_decide_eq_true_2 by exact E.
      exists w. split; [reflexivity | tauto].
    + rewrite (generateWithAI_run fetch w E).
      destruct (resume_outcome (fetch (promptBody (aiInput (home w))))
                  (snd (setLoadingAi true w))) as (w' & R & Hl & _).
      exists w'. split; [exact R | tauto].
Qed.


Lemma allTexts_related (P : jsval -> Prop) (R : Todo.t -> Todo.t -> Prop) :
  (forall a b, R a b -> allTexts P [a] -> allTexts P [b]) ->
  forall l l', Forall2 R l l' -> allTexts P l -> allTexts P l'.
Proof.
  intros HR l l' H. unfold allTexts in *.
  induction H as [|a b l l' Hab _ IH]; intros Hn; [constructor|].
  inversion Hn as [|? ? Ha Hl]; subst. constructor; [|now apply IH].
  assert (Hb : Forall (fun t => P (Todo.text t) /\
             Forall (fun sub => P (Subtask.text sub)) (Todo.subtasks t)) [b]).
  { apply (HR a b Hab). now constructor. }
  now inversion Hb.
Qed.

Lemma allTexts_others (P : jsval -> Prop) (i : number) (l : list Todo.t) :
  allTexts P l -> allTexts P (others i l).
Proof.
  unfold others, allTexts. induction 1 as [|t l Ht Hl IH]; [constructor|].
  rewrite filter_cons. destruct (decide (Todo.id t <> i)); [|exact IH].
  now constructor.
Qed.

Lemma allTexts_toggledTodo (P : jsval -> Prop) (i : number) (a b : Todo.t) :
  toggledTodo i a b -> allTexts P [a] -> allTexts P [b].
Proof.
  intros (_ & Ht & Hs & _) H. inversion H as [|? ? [Ha Hsa] _]; subst.
  constructor; [|constructor]. now rewrite Ht, Hs.
Qed.

Lemma allTexts_toggledSubtaskIn (P : jsval -> Prop) (i j : number)
    (a b : Todo.t) :
  toggledSubtaskIn i j a b -> allTexts P [a] -> allTexts P [b].
Proof.
  intros (_ & Ht & _ & Hy & Hn) H. inversion H as [|? ? [Ha Hsa] _]; subst.
  constructor; [|constructor].
  destruct (decide (Todo.id a = i)) as [E|E].
  - split; [now rewrite Ht|]. specialize (Hy E). clear -Hy Hsa.
    induction Hy as [|s s' l l' (_ & Hs & _) _ IH]; [constructor|].
    inversion Hsa; subst. constructor; [now rewrite Hs | now apply IH].
  - rewrite (Hn E). now split.
Qed.

Lemma allTexts_subtaskAdded (P : jsval -> Prop) (i : number)
    (text : jsstring) (a b : Todo.t) :
  P (JStr text) ->
  subtaskAdded i text a b -> allTexts P [a] -> allTexts P [b].
Proof.
  intros HP [Hy Hn] H. inversion H as [|? ? [Ha Hsa] _]; subst.
  constructor; [|constructor].
  destruct (decide (Todo.id a = i)) as [E|E].
  - destruct (Hy E) as (k & ->). split; [exact Ha|]. simpl.
    apply Forall_app. split; [exact Hsa|]. now repeat constructor.
  - rewrite (Hn E). now split.
Qed.

(** An event other than the ingestion keeps a property of the texts that
    holds of every text that was trimmed and found not empty. *)
Lemma perform_user_texts (P : jsval -> Prop) (a : Action) (w : World) :
  (forall s, JsString.trim s <> [] -> P (JStr (JsString.trim s))) ->
  userAction a = true -> allTexts P (store w) ->
  exists w', perform a w = (Normal tt, w') /\ allTexts P (store w').
Proof.
  intros HP Hu Hn. destruct a; simpl in *; try discriminate Hu.
  - eexists. split; [reflexivity | exact Hn].
  - destruct (addTodo_run w) as (w' & R & [E | (i & t & Hne & E)]);
      exists w'; (split; [exact R|]); rewrite E; [exact Hn|].
    constructor; [|exact Hn]. split; [|constructor]. now apply HP.
  - destruct (toggleTodo_run id w) as (w' & R & H).
    exists w'. split; [exact R|].
    exact (allTexts_related P _ (allTexts_toggledTodo P id) _ _ H Hn).
  - destruct (deleteTodo_run id w) as (w' & R & E).
    exists w'. split; [exact R|]. rewrite E. now apply allTexts_others.
  - eexists. split; [reflexivity | exact Hn].
  - destruct (handleSubtaskSubmit_run todoId w)
      as (w' & R & [E | (text & Hne & H)]);
      exists w'; (split; [exact R|]); [now rewrite E|].
    exact (allTexts_related P _
             (fun a b => allTexts_subtaskAdded P todoId _ a b (HP text Hne))
             _ _ H Hn).
  - destruct (toggleSubtask_run todoId subtaskId w) as (w' & R & H).
    exists w'. split; [exact R|].
    exact (allTexts_related P _ (allTexts_toggledSubtaskIn P todoId subtaskId)
             _ _ H Hn).
  - eexists. split; [reflexivity | exact Hn].
Qed.

(** X12.  What the two input forms put in the store is trimmed: over every
    session without ingestion, if every text of the store is a string
    that is not empty and has no white space at either end, this is still
    so at the end. *)
Theorem user_texts_stay_trimmed (acts : list Action) (w : World) :
  forallb userAction acts = true ->
  allTexts trimmedText (store w) ->
  exists w', run acts w = (Normal tt, w') /\ allTexts trimmedText (store w').
Proof.
  assert (HP : forall s, JsString.trim s <> [] ->
                         trimmedText (JStr (JsString.trim s))).
  { intros s Hs. exists (JsString.trim s).
    split; [reflexivity|]. split; [exact Hs | apply trim_idem]. }
  revert w. induction acts as [|a acts IH]; intros w Hu Hn; simpl in *.
  - exists w. split; [reflexivity | exact Hn].
  - apply andb_prop in Hu as [Ha Hu].
    destruct (perform_user_texts trimmedText a w HP Ha Hn) as (w1 & R1 & Hn1).
    destruct (IH w1 Hu Hn1) as (w' & R & Hn').
    exists w'. split; [|exact Hn'].
    rewrite (bind_normal _ _ _ _ _ R1). exact R.
Qed.

(** X12 on a session that types blanks around both texts. *)
Lemma user_texts_stay_trimmed_witness :
  exists w',
    run [TypeNewTodo (JsString.lit "  Walk dog "); AddTodo;
         TypeSubtask 100 (JsString.lit " leash  "); SubmitSubtask 100]
        mounted = (Normal tt, w') /\
    allTexts trimmedText (store w').
Proof.
  apply (user_texts_stay_trimmed
    [TypeNewTodo (JsString.lit "  Walk dog "); AddTodo;
     TypeSubtask 100 (JsString.lit " leash  "); SubmitSubtask 100] mounted).
  - reflexivity.
  - constructor.
Defined.

(* ===================================================================== *)
(** ** Further properties: identifiers *)
(* ===================================================================== *)

Lemma clockGrows_ret {A} (a : A) : clockGrows (ret a).
Proof. intros w r w' [= <- <-]. split; [reflexivity | lia]. Qed.

Lemma clockGrows_throw {A} (e : exn) : clockGrows (throw (A := A) e).
Proof. intros w r w' [= <- <-]. split; [reflexivity | lia]. Qed.

Lemma clockGrows_settle {A} (c : completion A) : clockGrows (settle c).
Proof. intros w r w' [= <- <-]. split; [reflexivity | lia]. Qed.

Lemma clockGrows_gets {A} (f : World -> A) : clockGrows (gets f).
Proof. intros w r w' [= <- <-]. split; [reflexivity | lia]. Qed.

Lemma clockGrows_getId : clockGrows getId.
Proof. intros w r w' [= <- <-]. simpl. split; [reflexivity | lia]. Qed.

Lemma clockGrows_withHome (f : Home -> Home) : clockGrows (withHome f).
Proof. intros w r w' [= <- <-]. simpl. split; [reflexivity | lia]. Qed.

Lemma clockGrows_getProp (v : jsval) (k : jsstring) :
  clockGrows (JsValue.getProp v k).
Proof.
  destruct v; simpl; first [apply clockGrows_throw | apply clockGrows_ret].
Qed.

Lemma clockGrows_bind {A B} (m : M World A) (k : A -> M World B) :
  clockGrows m -> (forall a, clockGrows (k a)) -> clockGrows (bind m k).
Proof.
  intros Hm Hk w r w' E. unfold bind in E.
  destruct (m w) as [[a|e] w1] eqn:E1.
  - apply Hm in E1 as [H1 H2]. apply Hk in E as [H3 H4].
    split; [congruence | lia].
  - apply Hm in E1. now inversion E; subst.
Qed.

Lemma clockGrows_mapM {A B} (f : A -> M World B) (xs : list A) :
  (forall x, clockGrows (f x)) -> clockGrows (mapM f xs).
Proof.
  intros Hf. induction xs as [|x xs IH]; simpl.
  - apply clockGrows_ret.
  - apply clockGrows_bind; [apply Hf | intros y].
    apply clockGrows_bind; [exact IH | intros ys; apply clockGrows_ret].
Qed.

Lemma clockGrows_arrayMap {B} (v : jsval) (f : jsval -> M World B) :
  (forall x, clockGrows (f x)) -> clockGrows (JsValue.arrayMap v f).
Proof.
  intros Hf. destruct v; simpl; try apply clockGrows_throw.
  now apply clockGrows_mapM.
Qed.

Lemma clockGrows_try_catch {A} (body : M World A) (h : exn -> M World A) :
  clockGrows body -> (forall e, clockGrows (h e)) ->
  clockGrows (try_catch body h).
Proof.
  intros Hb Hh w r w' E. unfold try_catch in E.
  destruct (body w) as [[a|e] w1] eqn:E1.
  - apply Hb in E1. now inversion E; subst.
  - apply Hb in E1 as [H1 H2]. apply Hh in E as [H3 H4].
    split; [congruence | lia].
Qed.

Lemma clockGrows_try_finally {A} (body : M World A) (fin : M World unit) :
  clockGrows body -> clockGrows fin -> clockGrows (try_finally body fin).
Proof.
  intros Hb Hf w r w' E. unfold try_finally in E.
  destruct (body w) as [r1 w1] eqn:E1. apply Hb in E1 as [H1 H2].
  destruct (fin w1) as [[u|e] w2] eqn:E2; apply Hf in E2 as [H3 H4];
    inversion E; subst; (split; [congruence | lia]).
Qed.

Lemma clockGrows_todoOfItem (item : jsval) : clockGrows (todoOfItem item).
Proof.
  unfold todoOfItem.
  apply clockGrows_bind; [apply clockGrows_getId | intros i].
  apply clockGrows_bind; [apply clockGrows_getProp | intros text].
  apply clockGrows_bind; [apply clockGrows_getProp | intros subs].
  apply clockGrows_bind; [| intros ss; apply clockGrows_ret].
  apply clockGrows_arrayMap. intros sub.
  apply clockGrows_bind; [apply clockGrows_getId | intros j].
  apply clockGrows_ret.
Qed.

Lemma clockGrows_resume (reply : completion FetchResponse) :
  clockGrows (generateWithAI_resume reply).
Proof.
  unfold generateWithAI_resume.
  apply clockGrows_try_finally; [|apply clockGrows_withHome].
  apply clockGrows_try_catch; [|intros e; apply clockGrows_ret].
  apply clockGrows_bind; [apply clockGrows_settle | intros res].
  apply clockGrows_bind; [apply clockGrows_settle | intros data].
  apply clockGrows_bind; [apply clockGrows_getProp | intros g].
  apply clockGrows_bind;
    [apply clockGrows_arrayMap, clockGrows_todoOfItem | intros new].
  apply clockGrows_bind; [apply clockGrows_withHome | intros _].
  apply clockGrows_withHome.
Qed.

Lemma clockGrows_addSubtask (i : number) (text : jsstring) :
  clockGrows (addSubtask i text).
Proof.
  unfold addSubtask, setTodosM.
  apply clockGrows_bind; [apply clockGrows_gets | intros prev].
  apply clockGrows_bind; [| intros next; apply clockGrows_withHome].
  apply clockGrows_mapM. intros t.
  destruct (Z.eqb (Todo.id t) i); [|apply clockGrows_ret].
  apply clockGrows_bind; [apply clockGrows_getId | intros k].
  apply clockGrows_ret.
Qed.

(** Every handler only advances the clock. *)
Lemma clockGrows_perform (a : Action) : clockGrows (perform a).
Proof.
  destruct a; simpl; try apply clockGrows_withHome.
  - unfold addTodo.
    apply clockGrows_bind; [apply clockGrows_gets | intros s].
    destruct (JsString.eqb (JsString.trim s) []); [apply clockGrows_ret|].
    apply clockGrows_bind; [apply clockGrows_getId | intros i].
    apply clockGrows_bind; [apply clockGrows_withHome | intros _].
    apply clockGrows_withHome.
  - unfold handleSubtaskSubmit.
    apply clockGrows_bind; [apply clockGrows_gets | intros inputs].
    destruct (JsString.trim <$> inputs !! todoId) as [[|c r]|];
      try apply clockGrows_ret.
    apply clockGrows_bind; [apply clockGrows_addSubtask | intros _].
    apply clockGrows_withHome.
  - apply clockGrows_bind; [apply clockGrows_gets | intros l].
    destruct l; [apply clockGrows_ret|].
    unfold generateWithAI.
    apply clockGrows_bind; [apply clockGrows_gets | intros s].
    destruct (JsString.eqb (JsString.trim s) []); [apply clockGrows_ret|].
    apply clockGrows_bind; [apply clockGrows_withHome | intros _].
    apply clockGrows_resume.
Qed.

Lemma allIds_app (l k : list Todo.t) : allIds (l ++ k) = allIds l ++ allIds k.
Proof.
  induction l as [|t l IH]; [reflexivity|].
  simpl. now rewrite IH, app_assoc.
Qed.

Lemma allIds_map (f : Todo.t -> Todo.t) (l : list Todo.t) :
  (forall t, idsOfTodo (f t) = idsOfTodo t) ->
  allIds (List.map f l) = allIds l.
Proof.
  intros Hf. induction l as [|t l IH]; [reflexivity|].
  cbn [List.map allIds]. now rewrite Hf, IH.
Qed.

Lemma idsOfTodo_flipTodo (i : number) (t : Todo.t) :
  idsOfTodo (flipTodo i t) = idsOfTodo t.
Proof. unfold flipTodo. now destruct (Z.eqb (Todo.id t) i). Qed.

Lemma idsOfTodo_flipSubtaskIn (i j : number) (t : Todo.t) :
  idsOfTodo (flipSubtaskIn i j t) = idsOfTodo t.
Proof.
  unfold flipSubtaskIn, idsOfTodo.
  destruct (Z.eqb (Todo.id t) i); [|reflexivity]. simpl. f_equal.
  rewrite List.map_map. apply List.map_ext. intros s. apply flipSubtask_id.
Qed.

Lemma allIds_others (i : number) (l : list Todo.t) :
  allIds (others i l) `sublist_of` allIds l.
Proof.
  unfold others. induction l as [|t l IH]; [constructor|].
  rewrite filter_cons. destruct (decide (Todo.id t <> i)).
  - cbn [allIds]. now apply sublist_app.
  - cbn [allIds]. now apply sublist_inserts_l.
Qed.

Lemma draws_split (c : Clock) (from a b : nat) :
  draws c from (a + b) = draws c from a ++ draws c (from + a) b.
Proof. unfold draws. now rewrite seq_app, List.map_app. Qed.

Lemma draws_ext (c c' : Clock) (from n : nat) :
  id_at c' = id_at c -> draws c' from n = draws c from n.
Proof. unfold draws. now intros ->. Qed.

(** The updater of [addSubtask]: the identifiers of the result are those
    it started from and the ones it drew. *)
Lemma addSubtask_updater_ids (i : number) (text : jsstring)
    (l : list Todo.t) :
  forall w l' w',
    mapM (fun todo =>
      if Z.eqb (Todo.id todo) i
      then
        k <- getId ;;
        ret (Todo.mk (Todo.id todo) (Todo.text todo) (Todo.completed todo)
               (Todo.subtasks todo ++ [Subtask.mk k (JStr text) false]))
      else ret todo) l w = (Normal l', w') ->
    id_at (clock w') = id_at (clock w) /\
    ticks (clock w) <= ticks (clock w') /\
    allIds l' ≡ₚ allIds l
      ++ draws (clock w) (ticks (clock w))
               (ticks (clock w') - ticks (clock w)).
Proof.
  induction l as [|t l IH]; intros w l' w' R; simpl in R.
  - injection R as <- <-. rewrite Nat.sub_diag. simpl.
    repeat split; [lia | reflexivity].
  - destruct (Z.eqb (Todo.id t) i).
    + unfold bind at 1 in R. unfold bind at 1 in R. unfold getId at 1 in R.
      unfold ret at 1 in R. unfold bind at 1 in R.
      match type of R with context [mapM ?f l ?v] =>
        destruct (mapM f l v) as [[r'|e] w1] eqn:R1; [|discriminate R];
        apply IH in R1 as (Hid & Hle & Hp)
      end.
      injection R as <- <-. simpl in Hid, Hle, Hp.
      split; [exact Hid|]. split; [lia|].
      replace (ticks (clock w1) - ticks (clock w))
        with (1 + (ticks (clock w1) - S (ticks (clock w)))) by lia.
      rewrite draws_split, Nat.add_1_r. cbn [allIds].
      unfold idsOfTodo, draws in *. simpl in Hp |- *.
      rewrite Hp, List.map_app. simpl.
      constructor. rewrite <- !app_assoc. apply Permutation_app_head.
      simpl. apply Permutation_middle.
    + unfold bind at 1 in R. unfold ret at 1 in R. unfold bind at 1 in R.
      match type of R with context [mapM ?f l ?v] =>
        destruct (mapM f l v) as [[r'|e] w1] eqn:R1; [|discriminate R];
        apply IH in R1 as (Hid & Hle & Hp)
      end.
      injection R as <- <-.
      split; [exact Hid|]. split; [exact Hle|].
      cbn [allIds]. rewrite Hp. now rewrite app_assoc.
Qed.

(** The callback of [item.subtasks.map] gives its results the next
    draws, in order. *)
Lemma subtasks_ids (subs : list jsval) :
  forall w ss w1,
    mapM (fun sub => j <- getId ;; ret (Subtask.mk j sub false)) subs w
    = (Normal ss, w1) ->
    List.map Subtask.id ss
    = draws (clock w) (ticks (clock w)) (length subs) /\
    ticks (clock w1) = ticks (clock w) + length subs /\
    id_at (clock w1) = id_at (clock w).
Proof.
  induction subs as [|sub subs IH]; intros w ss w1 R; simpl in R.
  - injection R as <- <-. simpl. repeat split. lia.
  - unfold bind at 1 in R. unfold bind at 1 in R. unfold getId at 1 in R.
    unfold ret at 1 in R. unfold bind at 1 in R.
    match type of R with context [mapM ?f subs ?v] =>
      destruct (mapM f subs v) as [[ss'|e] w2] eqn:R1; [|discriminate R];
      apply IH in R1 as (Hm & Ht & Hid)
    end.
    injection R as <- <-. simpl in Hm, Ht, Hid.
    split; [|split; [simpl; lia | exact Hid]].
    unfold draws in *. simpl in Hm |- *. now rewrite Hm.
Qed.

Lemma todoOfItem_ids (item : jsval) (w w1 : World) (t : Todo.t) :
  todoOfItem item w = (Normal t, w1) ->
  idsOfTodo t
  = draws (clock w) (ticks (clock w)) (ticks (clock w1) - ticks (clock w)) /\
  ticks (clock w) <= ticks (clock w1) /\
  id_at (clock w1) = id_at (clock w).
Proof.
  unfold todoOfItem. unfold bind at 1. unfold getId at 1.
  destruct item as [| |b|m e|s|xs|props]; try discriminate.
  unfold bind at 1. unfold JsValue.getProp at 1. unfold ret at 1.
  unfold bind at 1. unfold JsValue.getProp at 1. unfold ret at 1.
  destruct (JsValue.lookup (JsString.lit "subtasks") props)
    as [| |b|m e|s|subs|ps]; try discriminate.
  unfold bind at 1. unfold JsValue.arrayMap.
  match goal with |- context [mapM ?f subs ?v] =>
    destruct (mapM f subs v) as [[ss|e] w2] eqn:R1; [|discriminate];
    apply subtasks_ids in R1 as (Hm & Ht & Hid)
  end.
  unfold ret. intros [= <- <-]. simpl in Hm, Ht, Hid.
  split; [|split; [lia | exact Hid]].
  replace (ticks (clock w2) - ticks (clock w)) with (1 + length subs) by lia.
  rewrite draws_split, Nat.add_1_r.
  unfold idsOfTodo, draws in *. simpl in Hm |- *. now rewrite Hm.
Qed.

(** The generated tasks and their subtasks are given consecutive draws,
    in the order of the reply. *)
Lemma todoOfItems_ids (items : list jsval) :
  forall w new w1,
    mapM todoOfItem items w = (Normal new, w1) ->
    allIds new
    = draws (clock w) (ticks (clock w)) (ticks (clock w1) - ticks (clock w)) /\
    ticks (clock w) <= ticks (clock w1) /\
    id_at (clock w1) = id_at (clock w).
Proof.
  induction items as [|item items IH]; intros w new w1 R; simpl in R.
  - injection R as <- <-. rewrite Nat.sub_diag. repeat split. lia.
  - unfold bind at 1 in R.
    destruct (todoOfItem item w) as [[t|e] w2] eqn:R1; [|discriminate R].
    unfold bind at 1 in R.
    destruct (mapM todoOfItem items w2) as [[ts|e] w3] eqn:R2;
      [|discriminate R].
    injection R as <- <-.
    apply todoOfItem_ids in R1 as (H1 & L1 & I1).
    apply IH in R2 as (H2 & L2 & I2).
    split; [|split; [lia | congruence]].
    cbn [allIds]. rewrite H1, H2, (draws_ext _ _ _ _ I1).
    replace (ticks (clock w3) - ticks (clock w))
      with ((ticks (clock w2) - ticks (clock w))
            + (ticks (clock w3) - ticks (clock w2))) by lia.
    rewrite draws_split. do 2 f_equal. lia.
Qed.

Lemma addSubtask_ids (i : number) (text : jsstring) (w w' : World) :
  addSubtask i text w = (Normal tt, w') ->
  allIds (store w') ≡ₚ allIds (store w)
    ++ draws (clock w) (ticks (clock w))
             (ticks (clock w') - ticks (clock w)).
Proof.
  unfold addSubtask, setTodosM. unfold bind at 1. unfold gets at 1.
  unfold bind at 1. fold (store w).
  match goal with |- context [mapM ?f (store w) w] =>
    destruct (mapM f (store w) w) as [[l'|e] w1] eqn:R1; [|discriminate];
    apply addSubtask_updater_ids in R1 as (Hid & Hle & Hp)
  end.
  intros [= <-]. exact Hp.
Qed.

(** What an event does to the identifiers of the store: none appears
    that was not there or drawn by the event. *)
Lemma perform_ids (a : Action) (w w' : World) :
  perform a w = (Normal tt, w') ->
  allIds (store w') ⊆+ allIds (store w)
    ++ draws (clock w) (ticks (clock w))
             (ticks (clock w') - ticks (clock w)).
Proof.
  assert (same : forall v : World, allIds (store v) ⊆+ allIds (store v)
            ++ draws (clock v) (ticks (clock v))
                     (ticks (clock v) - ticks (clock v))).
  { intros v. now apply submseteq_inserts_r. }
  destruct a; simpl.
  - intros [= <-]. apply (same w).
  - unfold addTodo. unfold bind at 1. unfold gets at 1.
    destruct (JsString.eqb (JsString.trim (newTodo (home w))) []).
    + intros [= <-]. apply same.
    + intros [= <-]. simpl.
      replace (S (ticks (clock w)) - ticks (clock w)) with 1 by lia.
      apply Permutation_submseteq. unfold store, draws. simpl.
      apply Permutation_cons_append.
  - rewrite toggleTodo_flip. intros [= <-].
    rewrite store_withStore, (allIds_map _ _ (idsOfTodo_flipTodo id)).
    apply (same w).
  - rewrite deleteTodo_others. intros [= <-]. rewrite store_withStore.
    apply submseteq_inserts_r, sublist_submseteq, allIds_others.
  - intros [= <-]. apply (same w).
  - unfold handleSubtaskSubmit. unfold bind at 1. unfold gets at 1.
    destruct (JsString.trim <$> subtaskInputs (home w) !! todoId)
      as [[|c r]|]; try (intros [= <-]; apply same).
    unfold bind at 1.
    destruct (addSubtask todoId (c :: r) w) as [[[]|e] w1] eqn:R1;
      [|discriminate].
    intros [= <-]. apply addSubtask_ids in R1.
    apply Permutation_submseteq. exact R1.
  - rewrite toggleSubtask_flip. intros [= <-].
    rewrite store_withStore,
      (allIds_map _ _ (idsOfTodo_flipSubtaskIn todoId subtaskId)).
    apply (same w).
  - intros [= <-]. apply (same w).
  - unfold bind at 1. unfold gets at 1.
    destruct (loadingAi (home w)); [intros [= <-]; apply same|].
    destruct (decide (JsString.trim (aiInput (home w)) = [])) as [E|E].
    + unfold generateWithAI. unfold bind at 1. unfold gets at 1.
      unfold JsString.eqb. rewrite bool_decide_eq_true_2 by exact E.
      intros [= <-]. apply same.
    + rewrite (generateWithAI_run fetch w E).
      destruct (resume_explicit (fetch (promptBody (aiInput (home w))))
                  (snd (setLoadingAi true w))) as [Hf Ht].
      destruct (ingestible (fetch (promptBody (aiInput (home w))))).
      * destruct (Ht eq_refl) as (items & new & c' & _ & Rm & R).
        rewrite R. intros [= <-].
        apply todoOfItems_ids in Rm as (Hn & _ & _). simpl in Hn.
        unfold store. simpl. rewrite allIds_app, Hn.
        apply Permutation_submseteq, Permutation_app_comm.
      * destruct (Hf eq_refl) as (c' & R). rewrite R. intros [= <-].
        unfold store. simpl. now apply submseteq_inserts_r.
Qed.

(** One event keeps the identifiers unique when the source is fresh. *)
Lemma uniqueIds_step (w w' : World) :
  freshSource (clock w) -> uniqueIds w ->
  id_at (clock w') = id_at (clock w) ->
  ticks (clock w) <= ticks (clock w') ->
  allIds (store w') ⊆+ allIds (store w)
    ++ draws (clock w) (ticks (clock w))
             (ticks (clock w') - ticks (clock w)) ->
  freshSource (clock w') /\ uniqueIds w'.
Proof.
  intros Hfresh [Hnd Hdr] Hid Hle Hsub.
  split; [unfold freshSource; rewrite Hid; exact Hfresh|].
  assert (Hin : forall x, x ∈ allIds (store w') -> drawn (clock w') x).
  { intros x Hx. apply (elem_of_submseteq _ _ _ Hx) in Hsub.
    apply elem_of_app in Hsub as [Hold | Hnew].
    - rewrite Forall_forall in Hdr. destruct (Hdr x Hold) as (n & Hn & En).
      exists n. rewrite Hid. split; [lia | exact En].
    - unfold draws in Hnew. apply list_elem_of_fmap in Hnew as (k & -> & Hk).
      apply elem_of_seq in Hk. exists k. rewrite Hid. split; [lia | reflexivity]. }
  split; [|now apply Forall_forall].
  apply submseteq_Permutation in Hsub as (rest & Hperm).
  assert (Hall : NoDup (allIds (store w)
            ++ draws (clock w) (ticks (clock w))
                     (ticks (clock w') - ticks (clock w)))).
  { apply NoDup_app. split; [exact Hnd|]. split.
    - intros x Hold Hnew. rewrite Forall_forall in Hdr.
      destruct (Hdr x Hold) as (n & Hn & En).
      unfold draws in Hnew. apply list_elem_of_fmap in Hnew as (k & Ek & Hk).
      apply elem_of_seq in Hk. rewrite Ek in En. apply Hfresh in En. lia.
    - unfold draws. apply NoDup_fmap_2; [exact Hfresh | apply NoDup_seq]. }
  rewrite Hperm in Hall. now apply NoDup_app in Hall as [H _].
Qed.

(** X13.  If [getId] never returns the same number twice, identifiers are
    never shared: over every session, ingestion included, a store in
    which no identifier occurs twice (tasks and subtasks together) and
    all come from [getId] stays such a store. *)
Theorem sessions_keep_ids_unique (acts : list Action) (w : World) :
  freshSource (clock w) -> uniqueIds w ->
  exists w',
    run acts w = (Normal tt, w') /\ uniqueIds w' /\ freshSource (clock w').
Proof.
  revert w. induction acts as [|a acts IH]; intros w Hf Hu; simpl.
  - exists w. now split.
  - destruct (perform_returns a w) as (w1 & R1 & _).
    destruct (clockGrows_perform a w _ w1 R1) as [Hid Hle].
    destruct (uniqueIds_step w w1 Hf Hu Hid Hle (perform_ids a w w1 R1))
      as [Hf1 Hu1].
    destruct (IH w1 Hf1 Hu1) as (w' & R & Hu' & Hf').
    exists w'. split; [|now split].
    rewrite (bind_normal _ _ _ _ _ R1). exact R.
Qed.

(** X13 on a session that adds by hand and by generation. *)
Lemma sessions_keep_ids_unique_witness :
  exists w',
    run [TypeNewTodo (JsString.lit "Walk dog"); AddTodo;
         TypeSubtask 100 (JsString.lit "leash"); SubmitSubtask 100;
         TypeAiInput (JsString.lit "Plan my trip");
         Generate (fetchFrom (answering planTripAnswer))] mounted
    = (Normal tt, w') /\
    allIds (store w') = [102; 103; 104; 100; 101]%Z /\
    uniqueIds w'.
Proof.
  destruct (sessions_keep_ids_unique
    [TypeNewTodo (JsString.lit "Walk dog"); AddTodo;
     TypeSubtask 100 (JsString.lit "leash"); SubmitSubtask 100;
     TypeAiInput (JsString.lit "Plan my trip");
     Generate (fetchFrom (answering planTripAnswer))] mounted)
    as (w' & R & Hu & _).
  - intros m n E. simpl in E. lia.
  - split; constructor.
  - exists w'. split; [exact R|]. split; [|exact Hu].
    vm_compute in R. injection R as <-. vm_compute. reflexivity.
Defined.

Lemma others_unique (i : number) (l : list Todo.t) :
  NoDup (List.map Todo.id l) -> i ∈ List.map Todo.id l ->
  exists l1 t l2,
    l = l1 ++ t :: l2 /\ Todo.id t = i /\
    others i l = l1 ++ l2 /\
    List.map (flipTodo i) l = l1 ++ flipTodo i t :: l2 /\
    Forall (fun x => Todo.id x <> i) (l1 ++ l2).
Proof.
  induction l as [|t l IH]; intros Hnd Hin; [inversion Hin|].
  simpl in Hnd, Hin. apply NoDup_cons in Hnd as [Hnot Hnd].
  destruct (decide (Todo.id t = i)) as [E|E].
  - assert (Ha : Forall (fun x => Todo.id x <> i) l).
    { apply Forall_forall. intros x Hx Ex. apply Hnot. rewrite E, <- Ex.
      now apply list_elem_of_fmap_2. }
    exists [], t, l. split; [reflexivity|]. split; [exact E|].
    split; [|split; [|exact Ha]].
    + unfold others. rewrite filter_cons, decide_False by tauto.
      now apply others_absent.
    + simpl. f_equal. rewrite <- (List.map_id l) at 2.
      apply List.map_ext_in. intros x Hx. unfold flipTodo.
      rewrite Forall_forall in Ha. apply list_elem_of_In in Hx.
      destruct (Z.eqb_spec (Todo.id x) i); [|reflexivity].
      now destruct (Ha x Hx).
  - apply elem_of_cons in Hin as [Hin|Hin]; [congruence|].
    destruct (IH Hnd Hin) as (l1 & u & l2 & -> & Eu & Ho & Hm & Ha).
    exists (t :: l1), u, l2. split; [reflexivity|]. split; [exact Eu|].
    split; [|split].
    + unfold others in *. rewrite filter_cons, decide_True by exact E.
      simpl. now rewrite Ho.
    + simpl. rewrite Hm. f_equal. unfold flipTodo.
      destruct (Z.eqb_spec (Todo.id t) i); [contradiction | reflexivity].
    + simpl. now constructor.
Qed.

(** X14.  When the tasks of the store have pairwise distinct identifiers,
    an identifier that is present names exactly one task: [deleteTodo]
    removes that task and no other, and [toggleTodo] flips the flag of
    that task and of no other. *)
Theorem one_task_per_identifier (id : number) (w : World) :
  NoDup (List.map Todo.id (store w)) ->
  id ∈ List.map Todo.id (store w) ->
  exists l1 t l2 wd wt,
    store w = l1 ++ t :: l2 /\ Todo.id t = id /\
    deleteTodo id w = (Normal tt, wd) /\ store wd = l1 ++ l2 /\
    toggleTodo id w = (Normal tt, wt) /\
    store wt = l1 ++ Todo.mk (Todo.id t) (Todo.text t)
                       (negb (Todo.completed t)) (Todo.subtasks t) :: l2.
Proof.
  intros Hnd Hin.
  destruct (others_unique id (store w) Hnd Hin)
    as (l1 & t & l2 & Hs & Et & Ho & Hm & _).
  exists l1, t, l2. eexists _, _. split; [exact Hs|]. split; [exact Et|].
  rewrite deleteTodo_others, toggleTodo_flip.
  split; [reflexivity|]. split; [rewrite store_withStore; exact Ho|].
  split; [reflexivity|]. rewrite store_withStore, Hm.
  unfold flipTodo. now rewrite Et, Z.eqb_refl.
Qed.

(** X14 on a store of three tasks. *)
Lemma one_task_per_identifier_witness :
  exists wd wt,
    deleteTodo 101
      (snd (run [TypeNewTodo (JsString.lit "a"); AddTodo;
                 TypeNewTodo (JsString.lit "b"); AddTodo;
                 TypeNewTodo (JsString.lit "c"); AddTodo] mounted))
    = (Normal tt, wd) /\
    toggleTodo 101
      (snd (run [TypeNewTodo (JsString.lit "a"); AddTodo;
                 TypeNewTodo (JsString.lit "b"); AddTodo;
                 TypeNewTodo (JsString.lit "c"); AddTodo] mounted))
    = (Normal tt, wt) /\
    List.map Todo.id (store wd) = [102; 100]%Z /\
    List.map Todo.completed (store wt) = [false; true; false].
Proof.
  destruct (one_task_per_identifier 101
    (snd (run [TypeNewTodo (JsString.lit "a"); AddTodo;
               TypeNewTodo (JsString.lit "b"); AddTodo;
               TypeNewTodo (JsString.lit "c"); AddTodo] mounted)))
    as (l1 & t & l2 & wd & wt & Hs & Et & Rd & Hd & Rt & Ht).
  - apply (bool_decide_unpack _). vm_compute. exact I.
  - apply (bool_decide_unpack _). vm_compute. exact I.
  - exists wd, wt. split; [exact Rd|]. split; [exact Rt|].
    vm_compute in Rd. injection Rd as <-.
    vm_compute in Rt. injection Rt as <-.
    split; vm_compute; reflexivity.
Defined.

(* ===================================================================== *)
(** ** Further properties: the order of the tasks *)
(* ===================================================================== *)








(** X16.  Of the backend, a generation only sees the answer to one
    request: model [gpt-3.5-turbo], at most 200 tokens, the fixed system
    prompt, and the prompt as it was typed, not trimmed.  Two backends
    that answer this request alike leave the page in the same state. *)
Theorem generation_asks_once (create create' : Route.OpenAI) (w : World) :
  create (requestFor (JStr (aiInput (home w))))
  = create' (requestFor (JStr (aiInput (home w)))) ->
  generateWithAI (fetchFrom create) w = generateWithAI (fetchFrom create') w.
Proof.
  intros E. unfold generateWithAI. unfold bind at 1 3. unfold gets at 1 2.
  destruct (JsString.eqb (JsString.trim (aiInput (home w))) []);
    [reflexivity|].
  unfold bind. simpl. rewrite !fetchFrom_run. unfold gatewayTasks.
  now rewrite E.
Qed.

(** X16 with a second backend that fails on requests of another size. *)
Lemma generation_asks_once_witness :
  generateWithAI (fetchFrom (answering planTripAnswer)) busy
  = generateWithAI
      (fetchFrom (fun req =>
         if Z.eqb (Route.max_tokens req) 200
         then Normal [Route.mkChoice (Some planTripAnswer)]
         else Throw UpstreamError)) busy.
Proof.
  apply (generation_asks_once (answering planTripAnswer)).
  reflexivity.
Defined.
